(** * The nightly refactor script [.github/codex-refactor.py]

    A shallow embedding of the script and the properties of its
    components: Command Runner ([run]), Version-Control Adapter ([git]),
    File Selector ([should_include_file], [list_files]), Repository
    Snapshot Builder ([repo_map]), Prompt Builder ([build_prompts]),
    Model Client ([call_openai]) and Orchestrator ([main]).

    Python values are modelled as follows.
    - [str] is a sequence of Unicode code points, [list N].
    - [int] is [Z]; slices [l[:n]] follow Python for negative [n].
    - Effects (printing, subprocesses, file reads and writes, the API
      request, [sys.exit], exceptions) live in the monad [M]: a state
      transformer over the host's world and a chronological event log,
      whose outcome is a return value, a [SystemExit] or an uncaught
      exception.
    - What the host answers (subprocess results, file contents, the
      model's response, the clock) is a parameter, the class [Host]; so
      is the case table of Unicode, the class [Unicode].
    - Paths are POSIX paths; [pathlib] and [shlex] follow CPython 3.8 to
      3.13. *)

From Stdlib Require Import ZArith NArith QArith List String Ascii Lia.
From stdpp Require Import base numbers list strings gmap.

Close Scope Q_scope.
Open Scope Z_scope.

(** ** Strings *)

Definition str : Type := list N.

(** A source literal made of ASCII characters. *)
Fixpoint lit (s : string) : str :=
  match s with
  | EmptyString => []
  | String a s' => N_of_ascii a :: lit s'
  end.

Definition chr (a : ascii) : N := N_of_ascii a.

Arguments chr a%_char.

(** [str.isspace] on one character: the code points CPython's
    [_PyUnicode_IsWhitespace] accepts. *)
Definition isspace (c : N) : bool :=
  ((9 <=? c) && (c <=? 13) || (28 <=? c) && (c <=? 32)
   || (c =? 133) || (c =? 160) || (c =? 5760)
   || (8192 <=? c) && (c <=? 8202)
   || (c =? 8232) || (c =? 8233) || (c =? 8239) || (c =? 8287)
   || (c =? 12288))%N.

Fixpoint lstrip (s : str) : str :=
  match s with
  | [] => []
  | c :: s' => if isspace c then lstrip s' else s
  end.

Definition rstrip (s : str) : str := rev (lstrip (rev s)).

(** [s.strip()] *)
Definition strip (s : str) : str := rstrip (lstrip s).

(** [s.startswith(p)] *)
Fixpoint startswith (s p : str) : bool :=
  match p, s with
  | [], _ => true
  | _ :: _, [] => false
  | a :: p', b :: s' => (a =? b)%N && startswith s' p'
  end.

(** [sub in s] *)
Fixpoint contains (sub s : str) : bool :=
  startswith s sub ||
  match s with
  | [] => false
  | _ :: s' => contains sub s'
  end.

(** The truth value of a string: it is not empty. *)
Definition truthy (s : str) : bool :=
  match s with
  | [] => false
  | _ :: _ => true
  end.

(** [x in xs] for a collection of strings. *)
Definition str_eqb (a b : str) : bool := bool_decide (a = b).

Definition mem (x : str) (xs : list str) : bool := existsb (str_eqb x) xs.

(** [l[:n]] for an [int] [n]: a negative [n] counts from the end. *)
Definition slice_to {A} (n : Z) (l : list A) : list A :=
  if 0 <=? n then take (Z.to_nat n) l
  else take (length l - Z.to_nat (- n))%nat l.

(** [sep.join(parts)] *)
Fixpoint join (sep : str) (parts : list str) : str :=
  match parts with
  | [] => []
  | [p] => p
  | p :: rest => p ++ sep ++ join sep rest
  end.

(** [s.split(c)] for a one-character separator: never empty. *)
Fixpoint split (c : N) (s : str) : list str :=
  match s with
  | [] => [[]]
  | x :: s' =>
      if (x =? c)%N then [] :: split c s'
      else match split c s' with
           | [] => [[x]]
           | w :: ws => (x :: w) :: ws
           end
  end.

(** The line boundaries of [str.splitlines]. *)
Definition is_linebreak (c : N) : bool :=
  ((10 <=? c) && (c <=? 13) || (28 <=? c) && (c <=? 30)
   || (c =? 133) || (c =? 8232) || (c =? 8233))%N.

(** [s.splitlines()]: [cur] is the line being read, reversed; a carriage
    return followed by a line feed is one boundary; there is no empty
    last line. *)
Fixpoint splitlines_from (cur : str) (s : str) : list str :=
  match s with
  | [] => match cur with [] => [] | _ => [rev cur] end
  | c :: s' =>
      if is_linebreak c then
        rev cur ::
        match s' with
        | d :: s'' =>
            if ((c =? 13) && (d =? 10))%N then splitlines_from [] s''
            else splitlines_from [] s'
        | [] => []
        end
      else splitlines_from (c :: cur) s'
  end.

Definition splitlines (s : str) : list str := splitlines_from [] s.

(** [s.rfind(c)] for one character: the last index, or -1. *)
Fixpoint rfind_from (c : N) (s : str) (i found : Z) : Z :=
  match s with
  | [] => found
  | x :: s' => rfind_from c s' (i + 1) (if (x =? c)%N then i else found)
  end.

Definition rfind (c : N) (s : str) : Z := rfind_from c s 0 (-1).

(** [s.replace(c, by)] for a one-character pattern. *)
Definition replace (c : N) (by_ : str) (s : str) : str :=
  flat_map (fun x => if (x =? c)%N then by_ else [x]) s.

(** ** Library functions the script calls *)

(** [pathlib.PurePosixPath(path).name]: the last component that is
    neither empty nor a single dot, or the empty string. *)
Definition path_name (path : str) : str :=
  List.last
    (List.filter (fun c => negb (str_eqb c []) && negb (str_eqb c (lit ".")))
       (split (chr "/") path))
    [].

(** [pathlib.PurePosixPath(path).suffix]:
    [i = name.rfind('.'); name[i:] if 0 < i < len(name) - 1 else ''] *)
Definition suffix (path : str) : str :=
  let name := path_name path in
  let i := rfind (chr ".") name in
  if (0 <? i) && (i <? Z.of_nat (length name) - 1)
  then drop (Z.to_nat i) name
  else [].

(** The case table of [str.lower] outside ASCII: the lowercase of the
    character at an index of a string (an index, since a capital sigma
    depends on its neighbours). *)
Class Unicode := { unicode_lower : str -> nat -> str }.

Definition is_ascii_upper (c : N) : bool := ((65 <=? c) && (c <=? 90))%N.

Fixpoint lower_from `{Unicode} (whole : str) (i : nat) (s : str) : str :=
  match s with
  | [] => []
  | c :: s' =>
      (if is_ascii_upper c then [(c + 32)%N]
       else if (c <? 128)%N then [c]
       else unicode_lower whole i)
      ++ lower_from whole (S i) s'
  end.

(** [s.lower()] *)
Definition lower `{Unicode} (s : str) : str := lower_from s 0 s.

(** [shlex.quote]: the characters [[\w@%+=:,./-]] (ASCII) are safe. *)
Definition is_safe (c : N) : bool :=
  ((48 <=? c) && (c <=? 57) || (65 <=? c) && (c <=? 90)
   || (97 <=? c) && (c <=? 122) || (c =? chr "_")
   || (c =? chr "@") || (c =? chr "%") || (c =? chr "+") || (c =? chr "=")
   || (c =? chr ":") || (c =? chr ",") || (c =? chr ".") || (c =? chr "/")
   || (c =? chr "-"))%N.

Definition squote : N := chr "'".
Definition dquote : N := 34%N.

Definition shlex_quote (s : str) : str :=
  if negb (truthy s) then [squote; squote]
  else if forallb is_safe s then s
  else [squote]
       ++ replace squote [squote; dquote; squote; dquote; squote] s
       ++ [squote].

(** [textwrap.dedent] *)
Definition is_blank (c : N) : bool := ((c =? 32) || (c =? 9))%N.

Fixpoint leading_blanks (l : str) : str :=
  match l with
  | c :: l' => if is_blank c then c :: leading_blanks l' else []
  | [] => []
  end.

Fixpoint common_prefix (a b : str) : str :=
  match a, b with
  | x :: a', y :: b' => if (x =? y)%N then x :: common_prefix a' b' else []
  | _, _ => []
  end.

Definition dedent_margin (margin : option str) (indent : str) : option str :=
  match margin with
  | None => Some indent
  | Some m =>
      if startswith indent m then Some m
      else if startswith m indent then Some indent
      else Some (common_prefix m indent)
  end.

Definition dedent (text : str) : str :=
  let lines :=
    map (fun l => if forallb is_blank l then [] else l)
      (split (chr "010") text) in
  let indents :=
    flat_map (fun l => let b := leading_blanks l in
                       if (length b <? length l)%nat then [b] else [])
      lines in
  match fold_left dedent_margin indents None with
  | Some (c :: m) =>
      join [chr "010"]
        (map (fun l => if startswith l (c :: m)
                       then drop (length (c :: m)) l else l) lines)
  | _ => join [chr "010"] lines
  end.

(** [datetime.strftime('%Y%m%d%H%M%S')] *)
Record datetime := {
  year : N; month : N; day : N; hour : N; minute : N; second : N
}.

Definition digit (k : N) (n : N) : N := (48 + (n / 10 ^ k) mod 10)%N.

Definition two_digits (n : N) : str := [digit 1 n; digit 0 n].

Definition strftime_YmdHMS (d : datetime) : str :=
  [digit 3 (year d); digit 2 (year d); digit 1 (year d); digit 0 (year d)]
  ++ two_digits (month d) ++ two_digits (day d)
  ++ two_digits (hour d) ++ two_digits (minute d) ++ two_digits (second d).

(** ** The Prompt Builder *)

Definition user_goal : str :=
  lit "
Review the entire codebase with the goal of raising overall quality and maintainability.
Identify duplicate, near-duplicate, or overly verbose code that can be consolidated, and refactor it to improve clarity and consistency.
Break down monolithic functions into smaller, more focused units and ensure the code is DRY, clean, and easy to understand.
Avoid unnecessary abstraction" ++ [8212%N] ++
  lit "do not introduce classes or functions that add complexity without real benefit"
  ++ [8212%N] ++
  lit "but re-implement outdated or incompatible code in a modern, clean way aligned with the current architecture.
The objective is to deliver a streamlined, high-quality, and consistent codebase that is maintainable, readable, and free of redundant logic.
".

Definition system : str :=
  lit "
You are an expert software engineer. Output ONLY a single unified diff (GNU patch format) relative to the current repository state.
Rules:
- No prose; only diff.
- Correct repo-relative paths.
- Include new/removed/renamed files as needed.
- Keep changes small but meaningful; safe refactors preferred.
- The diff must apply cleanly with: git apply --index --whitespace=fix
".

Definition repo_map_heading : str :=
  [chr "010"; chr "010"] ++ lit "REPO MAP (truncated):" ++ [chr "010"].

Definition build_prompts (summary : str) : str * str :=
  let user := strip (dedent user_goal) ++ repo_map_heading ++ summary in
  (strip system, user).

(** ** The host: subprocesses, files, the API and the clock *)

(** [subprocess.CompletedProcess] with captured text output. *)
Record CompletedProcess := {
  returncode : Z; stdout : str; stderr : str
}.

(** The response object: [output_text] is the attribute the SDK exposes
    (absent on other objects), [resp_str] is [str(resp)]. *)
Record Response := { output_text : option str; resp_str : str }.

Record message := { role : str; content : str }.

Record request := {
  api_key : str;
  model : str;
  input : list message;
  temperature : Q;
  max_output_tokens : Z
}.

(** Exceptions the host can raise; all of them derive from [Exception]. *)
Inductive exception : Type :=
| KeyError (key : str)
| OSError (msg : str)
| ValueError (msg : str)
| UnicodeDecodeError (msg : str)
| ImportError (msg : str)
| APIError (msg : str).

(** What the process does, in order, with what the host answered. *)
Inductive event : Type :=
| Print (s : str)
| PrintErr (s : str)
| SubprocessRun (cmd : str) (r : exception + CompletedProcess)
| ReadText (path : str) (r : exception + str)
| WriteText (path data : str) (r : exception + unit)
| ResponsesCreate (req : request) (r : exception + Response).

(** How a computation ends. *)
Inductive outcome (A : Type) : Type :=
| Return (a : A)
| SystemExit (code : Z)
| Uncaught (e : exception).

Arguments Return {A} a.
Arguments SystemExit {A} code.
Arguments Uncaught {A} e.

(** The exit status of the interpreter: 0 when the script runs to its
    end, the argument of [sys.exit], 1 after a traceback. *)
Definition exit_status {A} (o : outcome A) : Z :=
  match o with
  | Return _ => 0
  | SystemExit code => code
  | Uncaught _ => 1
  end.

Class Host (W : Type) := {
  (** [subprocess.run(cmd, shell=True, text=True, capture_output=True)] *)
  host_subprocess_run : str -> W -> (exception + CompletedProcess) * W;
  (** [pathlib.Path(fp).read_text(encoding="utf-8", errors="ignore")] *)
  host_read_text : str -> W -> (exception + str) * W;
  (** [pathlib.Path(fp).write_text(data, encoding="utf-8")] *)
  host_write_text : str -> str -> W -> (exception + unit) * W;
  (** [OpenAI(api_key=...).responses.create(...)], import included *)
  host_responses_create : request -> W -> (exception + Response) * W;
  (** [datetime.utcnow()] *)
  host_utcnow : W -> datetime
}.

Record state (W : Type) := { world : W; log : list event }.

Arguments world {W} s.
Arguments log {W} s.

Definition M (W A : Type) : Type := state W -> outcome A * state W.

Definition ret {W A} (a : A) : M W A := fun st => (Return a, st).

Definition bind {W A B} (m : M W A) (k : A -> M W B) : M W B :=
  fun st =>
    match m st with
    | (Return a, st') => k a st'
    | (SystemExit code, st') => (SystemExit code, st')
    | (Uncaught e, st') => (Uncaught e, st')
    end.

Declare Scope py_scope.
Delimit Scope py_scope with py.
Bind Scope py_scope with M.

Notation "x <- m ;; k" := (bind m (fun x => k))
  (at level 100, m at next level, right associativity) : py_scope.
Notation "m ;; k" := (bind m (fun _ => k))
  (at level 100, right associativity) : py_scope.

Open Scope py_scope.

(** [raise e] and [sys.exit(code)] *)
Definition raise {W A} (e : exception) : M W A := fun st => (Uncaught e, st).

Definition sys_exit {W A} (code : Z) : M W A :=
  fun st => (SystemExit code, st).

(** [try: body / except Exception: handler] *)
Definition try_except {W A} (body : M W A) (handler : M W A) : M W A :=
  fun st =>
    match body st with
    | (Uncaught _, st') => handler st'
    | r => r
    end.

Definition record {W} (e : event) (st : state W) : state W :=
  {| world := world st; log := log st ++ [e] |}.

(** A call to the host: log the call with its answer, raise or return. *)
Definition call {W A} (op : W -> (exception + A) * W)
    (ev : exception + A -> event) : M W A :=
  fun st =>
    let '(r, w') := op (world st) in
    let st' := {| world := w'; log := log st ++ [ev r] |} in
    match r with
    | inl e => (Uncaught e, st')
    | inr a => (Return a, st')
    end.

Definition print {W} (s : str) : M W unit :=
  fun st => (Return tt, record (Print s) st).

Definition print_stderr {W} (s : str) : M W unit :=
  fun st => (Return tt, record (PrintErr s) st).

(** Run a computation in a world, with an empty log. *)
Definition exec {W A} (m : M W A) (w : W) : outcome A * state W :=
  m {| world := w; log := [] |}.

(** The commands a log ran and the files it wrote. *)
Definition commands (l : list event) : list str :=
  flat_map (fun e => match e with SubprocessRun cmd _ => [cmd] | _ => [] end) l.

Definition writes (l : list event) : list str :=
  flat_map (fun e => match e with WriteText path _ _ => [path] | _ => [] end) l.

(** The log of one runner call: the echoed command and the subprocess. *)
Definition ran (cmd : str) (r : exception + CompletedProcess) : list event :=
  [Print (lit "$ " ++ cmd); SubprocessRun cmd r].

(** What a failed, checked call adds before it exits. *)
Definition reported (p : CompletedProcess) : list event :=
  [Print (stdout p); PrintErr (stderr p)].

(** The log of the reads of a snapshot, and the reads that succeeded. *)
Definition attempts (rs : list (str * (exception + str))) : list event :=
  map (fun '(fp, r) => ReadText fp r) rs.

Definition successes (rs : list (str * (exception + str)))
    : list (str * str) :=
  flat_map (fun '(fp, r) =>
              match r with
              | inr text => [(fp, text)]
              | inl _ => []
              end) rs.

(** ** The script *)

(** The module's globals, read from the environment at import. *)
Record globals := {
  BASE_BRANCH : str;
  CHANGE_BRANCH : str;
  OPENAI_MODEL : str;
  OPENAI_API_KEY : str
}.

Definition incl_ext : list str :=
  map lit [".js"; ".ts"; ".tsx"; ".py"; ".rb"; ".go"; ".java"; ".cs"; ".cpp";
           ".c"; ".h"; ".hpp"; ".rs"; ".swift"; ".php"; ".sh"; ".yml";
           ".yaml"; ".json"; ".md"; ".html"; ".css"]%string.

Definition excerpt (fp text : str) (max_per_file_chars : Z) : str :=
  lit "--- " ++ fp ++ lit " ---" ++ [chr "010"]
  ++ slice_to max_per_file_chars text.

Definition patch_file : str := lit ".codex.patch".

Definition commit_args : str :=
  lit "commit -m " ++ [dquote] ++ lit "Nightly automated refactor (Codex)"
  ++ [dquote].

Definition no_diff_message : str :=
  lit "Model did not return a unified diff; exiting without changes.".

Definition no_changes_message : str := lit "No changes to commit.".

Definition pushed_message : str :=
  lit "Branch pushed; PR step will create/update the pull request.".

Section Script.

Context {U : Unicode} {W : Type} {H : Host W}.

Definition subprocess_run (cmd : str) : M W CompletedProcess :=
  call (host_subprocess_run cmd) (SubprocessRun cmd).

Definition read_text (fp : str) : M W str :=
  call (host_read_text fp) (ReadText fp).

Definition write_text (fp data : str) : M W unit :=
  call (host_write_text fp data) (WriteText fp data).

Definition responses_create (req : request) : M W Response :=
  call (host_responses_create req) (ResponsesCreate req).

Definition run (cmd : str) (check : bool) : M W str :=
  print (lit "$ " ++ cmd) ;;
  p <- subprocess_run cmd ;;
  if check && negb (returncode p =? 0) then
    print (stdout p) ;;
    print_stderr (stderr p) ;;
    sys_exit (returncode p)
  else
    ret (strip (stdout p)).

Definition git (args : str) (check : bool) : M W str :=
  run (lit "git " ++ args) check.

Definition should_include_file (path : str) : bool :=
  if mem (lower (suffix path)) incl_ext
     && negb (contains (lit "node_modules/") path)
     && negb (contains (lit ".git/") path)
     && negb (contains (lit "vendor/") path)
  then true
  else false.

Definition list_files : M W (list str) :=
  out <- git (lit "ls-files") true ;;
  ret (List.filter should_include_file (splitlines out)).

(** The loop of [repo_map] over [files[:max_files]]; [parts] is the list
    the loop appends to. *)
Fixpoint repo_map_loop (fps : list str) (max_per_file_chars : Z)
    (parts : list str) : M W (list str) :=
  match fps with
  | [] => ret parts
  | fp :: rest =>
      parts' <- try_except
                  (text <- read_text fp ;;
                   ret (parts ++ [excerpt fp text max_per_file_chars]))
                  (ret parts) ;;
      repo_map_loop rest max_per_file_chars parts'
  end.

Definition repo_map (files : list str) (max_per_file_chars max_files : Z)
    : M W str :=
  parts <- repo_map_loop (slice_to max_files files) max_per_file_chars [] ;;
  ret (join [chr "010"; chr "010"] parts).

Definition getattr_output_text (resp : Response) : str :=
  match output_text resp with
  | Some text => text
  | None => resp_str resp
  end.

Section Main.

Variable G : globals.

Definition call_openai (system_prompt user_prompt : str) : M W str :=
  resp <- responses_create
            {| api_key := OPENAI_API_KEY G;
               model := OPENAI_MODEL G;
               input := [ {| role := lit "system"; content := system_prompt |};
                          {| role := lit "user"; content := user_prompt |} ];
               temperature := 2 # 10;
               max_output_tokens := 100000 |} ;;
  ret (strip (getattr_output_text resp)).

Definition main : M W unit :=
  git (lit "checkout " ++ shlex_quote (BASE_BRANCH G)) true ;;
  git (lit "pull --ff-only") true ;;
  files <- list_files ;;
  summary <- repo_map files 4000 150 ;;
  let '(system_p, user_p) := build_prompts summary in
  diff <- call_openai system_p user_p ;;
  if negb (startswith diff (lit "diff --git") || startswith diff (lit "--- "))
  then
    print no_diff_message ;;
    print (slice_to 2000 diff) ;;
    ret tt
  else
    git (lit "checkout -b " ++ shlex_quote (CHANGE_BRANCH G)) true ;;
    write_text patch_file diff ;;
    run (lit "git apply --index --whitespace=fix " ++ patch_file) true ;;
    status <- git (lit "status --porcelain") false ;;
    if negb (truthy status) then
      print no_changes_message ;;
      ret tt
    else
      git commit_args true ;;
      git (lit "push -u origin " ++ shlex_quote (CHANGE_BRANCH G)) true ;;
      print pushed_message.

End Main.

(** [os.getenv(key, default)] *)
Definition getenv (environ : gmap str str) (key default_ : str) : str :=
  default default_ (environ !! key).

(** The module body up to the definitions: the four globals.
    [os.environ["OPENAI_API_KEY"]] raises [KeyError] when the key is
    missing. *)
Definition load_globals (environ : gmap str str) : M W globals :=
  fun st =>
    let base := getenv environ (lit "BASE_BRANCH") (lit "master") in
    let change :=
      getenv environ (lit "CHANGE_BRANCH")
        (lit "codex/refactor-" ++ strftime_YmdHMS (host_utcnow (world st))) in
    let model := getenv environ (lit "OPENAI_MODEL") (lit "gpt-5-codex") in
    match environ !! lit "OPENAI_API_KEY" with
    | None => raise (KeyError (lit "OPENAI_API_KEY")) st
    | Some key =>
        ret {| BASE_BRANCH := base; CHANGE_BRANCH := change;
               OPENAI_MODEL := model; OPENAI_API_KEY := key |} st
    end.

(** The script run as [__main__]. *)
Definition script (environ : gmap str str) : M W unit :=
  G <- load_globals environ ;;
  main G.

End Script.

(** The outcome and the log of a computation run in a world. *)
Definition outcome_of {W A} (m : M W A) (w : W) : outcome A := fst (exec m w).

Definition trace_of {W A} (m : M W A) (w : W) : list event :=
  log (snd (exec m w)).

(** The command lines of [main], in the order in which it runs them. *)
Definition main_commands (G : globals) : list str :=
  [ lit "git " ++ lit "checkout " ++ shlex_quote (BASE_BRANCH G);
    lit "git " ++ lit "pull --ff-only";
    lit "git " ++ lit "ls-files";
    lit "git " ++ lit "checkout -b " ++ shlex_quote (CHANGE_BRANCH G);
    lit "git apply --index --whitespace=fix " ++ patch_file;
    lit "git " ++ lit "status --porcelain";
    lit "git " ++ commit_args;
    lit "git " ++ lit "push -u origin " ++ shlex_quote (CHANGE_BRANCH G) ].

(** ** How the shell reads a command line

    [subprocess.run(cmd, shell=True)] hands [cmd] to [/bin/sh -c].  The
    reader below follows the token recognition and quoting rules of the
    POSIX shell for one simple command made of literal words: blanks
    separate words, a single-quoted part is taken literally up to the
    next single quote, a double-quoted part is taken literally up to the
    next double quote, and adjacent parts form one word.  It gives up
    ([None]) on every unquoted character the shell gives a meaning of its
    own (operators, expansions, patterns, comments, line ends), on an
    expansion or escape inside double quotes, on an open quote, and on a
    first word that could be an assignment.  When it answers
    [Some argv], the shell runs exactly one program with the arguments
    [argv] and nothing else. *)

Inductive quoting : Type := Unquoted | SingleQuoted | DoubleQuoted.

Definition sh_special (c : N) : bool :=
  existsb (N.eqb c)
    [chr "|"; chr "&"; chr ";"; chr "<"; chr ">"; chr "("; chr ")";
     chr "$"; chr "`"; chr "\"; chr "010"; chr "*"; chr "?"; chr "[";
     chr "]"; chr "#"; chr "~"; chr "{"; chr "}"; chr "!"; chr "^"].

Definition sh_expands (c : N) : bool :=
  ((c =? chr "$") || (c =? chr "`") || (c =? chr "\"))%N.

(** The word being read, with one more character. *)
Definition push (c : N) (cur : option str) : option str :=
  Some (default [] cur ++ [c]).

Fixpoint sh_lex (q : quoting) (cur : option str) (s : str)
    : option (list str) :=
  match s with
  | [] =>
      match q with
      | Unquoted => Some (match cur with Some w => [w] | None => [] end)
      | _ => None
      end
  | c :: s' =>
      match q with
      | SingleQuoted =>
          if (c =? squote)%N then sh_lex Unquoted cur s'
          else sh_lex SingleQuoted (push c cur) s'
      | DoubleQuoted =>
          if (c =? dquote)%N then sh_lex Unquoted cur s'
          else if sh_expands c then None
          else sh_lex DoubleQuoted (push c cur) s'
      | Unquoted =>
          if is_blank c then
            match cur with
            | Some w => cons w <$> sh_lex Unquoted None s'
            | None => sh_lex Unquoted None s'
            end
          else if (c =? squote)%N then
            sh_lex SingleQuoted (Some (default [] cur)) s'
          else if (c =? dquote)%N then
            sh_lex DoubleQuoted (Some (default [] cur)) s'
          else if sh_special c then None
          else sh_lex Unquoted (push c cur) s'
      end
  end.

Definition sh_argv (cmd : str) : option (list str) :=
  match sh_lex Unquoted None cmd with
  | Some (w :: ws) =>
      if existsb (N.eqb (chr "=")) w then None else Some (w :: ws)
  | _ => None
  end.

(** The argument vectors of the eight commands of [main], in the order
    in which it runs them. *)
Definition main_argvs (G : globals) : list (list str) :=
  [ map lit ["git"; "checkout"]%string ++ [BASE_BRANCH G];
    map lit ["git"; "pull"; "--ff-only"]%string;
    map lit ["git"; "ls-files"]%string;
    map lit ["git"; "checkout"; "-b"]%string ++ [CHANGE_BRANCH G];
    map lit ["git"; "apply"; "--index"; "--whitespace=fix"; ".codex.patch"]%string;
    map lit ["git"; "status"; "--porcelain"]%string;
    map lit ["git"; "commit"; "-m"; "Nightly automated refactor (Codex)"]%string;
    map lit ["git"; "push"; "-u"; "origin"]%string ++ [CHANGE_BRANCH G] ].

(** ** A scripted host

    A host whose answers are fixed in advance: one answer per command
    line, one per file, one for the API request. *)

Record scenario := {
  on_command : str -> exception + CompletedProcess;
  on_read : str -> exception + str;
  on_request : exception + Response;
  clock : datetime
}.

#[local] Instance scripted : Host scenario := {|
  host_subprocess_run cmd w := (on_command w cmd, w);
  host_read_text fp w := (on_read w fp, w);
  host_write_text fp data w := (inr tt, w);
  host_responses_create req w := (on_request w, w);
  host_utcnow w := clock w
|}.

(** A case table for text whose characters outside ASCII have no
    case. *)
#[local] Instance caseless : Unicode := {|
  unicode_lower whole i := option_list (whole !! i)
|}.

Definition ok (out : str) : exception + CompletedProcess :=
  inr {| returncode := 0; stdout := out; stderr := [] |}.

Definition failed (code : Z) (err : str) : exception + CompletedProcess :=
  inr {| returncode := code; stdout := []; stderr := err |}.

Definition an_instant : datetime :=
  {| year := 2025; month := 1; day := 2; hour := 3; minute := 4; second := 5 |}.

(** A repository with three tracked files, of which [b.txt] is not
    selected and [c/d.JS] cannot be read; [status] and [commit] are the
    answers to the status query and to the commit, [answer] is the
    model's text. *)
Definition listing : str :=
  lit "a.py" ++ [chr "010"] ++ lit "b.txt" ++ [chr "010"] ++ lit "c/d.JS"
  ++ [chr "010"].

Definition scene (status commit : exception + CompletedProcess)
    (answer : str) : scenario :=
  {| on_command cmd :=
       if str_eqb cmd (lit "git ls-files") then ok listing
       else if str_eqb cmd (lit "git status --porcelain") then status
       else if str_eqb cmd (lit "git " ++ commit_args) then commit
       else ok [];
     on_read fp :=
       if str_eqb fp (lit "a.py") then inr (lit "print(1)")
       else inl (OSError (lit "Permission denied"));
     on_request := inr {| output_text := Some answer; resp_str := [] |};
     clock := an_instant |}.

Definition a_diff : str :=
  lit "  diff --git a/a.py b/a.py" ++ [chr "010"].

Definition modified : str := lit " M a.py" ++ [chr "010"].

Definition refusal : str := lit "I cannot help with that.".

(** The globals of a run with only the API key in the environment. *)
Definition nightly : globals :=
  {| BASE_BRANCH := lit "master";
     CHANGE_BRANCH := lit "codex/refactor-20250102030405";
     OPENAI_MODEL := lit "gpt-5-codex";
     OPENAI_API_KEY := lit "sk-test" |}.

(** A host where every command fails with status 3. *)
Definition all_fail : scenario :=
  {| on_command _ := inr {| returncode := 3; stdout := lit " partial ";
                            stderr := lit "fatal: boom" |};
     on_read _ := inl (OSError []);
     on_request := inl (APIError []);
     clock := an_instant |}.

(** The same repository when the API request fails. *)
Definition api_down : scenario :=
  {| on_command := on_command (scene (ok modified) (ok []) a_diff);
     on_read := on_read (scene (ok modified) (ok []) a_diff);
     on_request := inl (APIError (lit "rate limit"));
     clock := an_instant |}.

(** * Properties *)

(** ** The Command Runner *)

Section Runner.

Context {W : Type} {H : Host W}.

Lemma run_unfold (cmd : str) (check : bool) (st : state W) :
  run cmd check st =
  match host_subprocess_run cmd (world st) with
  | (inl e, w') =>
      (Uncaught e, {| world := w'; log := log st ++ ran cmd (inl e) |})
  | (inr p, w') =>
      if check && negb (returncode p =? 0) then
        (SystemExit (returncode p),
         {| world := w'; log := log st ++ ran cmd (inr p) ++ reported p |})
      else
        (Return (strip (stdout p)),
         {| world := w'; log := log st ++ ran cmd (inr p) |})
  end.
Proof.
  unfold run, bind, print, print_stderr, subprocess_run, call, record,
    sys_exit, ret, ran, reported.
  cbn [world log].
  destruct (host_subprocess_run cmd (world st)) as [[e | p] w'].
  - by rewrite <- app_assoc.
  - destruct (check && negb (returncode p =? 0)); cbn [world log];
      by rewrite <- !app_assoc.
Qed.

(** C3. Whatever the command and the subprocess result: with [check]
    true and a non-zero exit code, [run] prints the captured stdout,
    prints the captured stderr to the error stream and exits the process
    with that exit code; with [check] false, or a zero exit code, it
    returns the captured stdout stripped, whatever the exit code. *)
Theorem run_exits_or_returns (cmd : str) (check : bool) (st : state W)
    (p : CompletedProcess) (w' : W) :
  host_subprocess_run cmd (world st) = (inr p, w') ->
  (check = true -> returncode p <> 0 ->
   run cmd check st =
   (SystemExit (returncode p),
    {| world := w';
       log := log st ++ [Print (lit "$ " ++ cmd); SubprocessRun cmd (inr p);
                         Print (stdout p); PrintErr (stderr p)] |}))
  /\
  (check = false \/ returncode p = 0 ->
   run cmd check st =
   (Return (strip (stdout p)),
    {| world := w';
       log := log st ++ [Print (lit "$ " ++ cmd);
                         SubprocessRun cmd (inr p)] |})).
Proof.
  intros Hp. rewrite run_unfold, Hp. split.
  - intros -> Hrc. apply Z.eqb_neq in Hrc. by rewrite Hrc.
  - intros [-> | Hrc]; [done |].
    apply Z.eqb_eq in Hrc. by rewrite Hrc, andb_false_r.
Qed.

End Runner.

Lemma run_exits_or_returns_witness :
  let st := {| world := all_fail; log := [] |} in
  let p := {| returncode := 3; stdout := lit " partial ";
              stderr := lit "fatal: boom" |} in
  host_subprocess_run (lit "git pull") (world st) = (inr p, all_fail)
  /\ run (lit "git pull") true st =
     (SystemExit 3,
      {| world := all_fail;
         log := [Print (lit "$ git pull");
                 SubprocessRun (lit "git pull") (inr p);
                 Print (lit " partial "); PrintErr (lit "fatal: boom")] |})
  /\ run (lit "git pull") false st =
     (Return (lit "partial"),
      {| world := all_fail;
         log := [Print (lit "$ git pull");
                 SubprocessRun (lit "git pull") (inr p)] |}).
Proof.
  intros st p.
  pose proof (run_exits_or_returns (lit "git pull") true st p all_fail
                eq_refl) as [Hexit _].
  pose proof (run_exits_or_returns (lit "git pull") false st p all_fail
                eq_refl) as [_ Hret].
  split; [reflexivity |]. split.
  - apply Hexit; [reflexivity | discriminate].
  - apply Hret. by left.
Defined.

(** ** The Prompt Builder *)

(** C8. [build_prompts] is a function of the snapshot alone: equal
    snapshots give equal prompt pairs, the system instruction is the
    fixed text and the user instruction is the fixed goal and heading
    followed by the snapshot. *)
Theorem build_prompts_deterministic (summary1 summary2 : str) :
  summary1 = summary2 ->
  build_prompts summary1 = build_prompts summary2
  /\ fst (build_prompts summary1) =
     lit "You are an expert software engineer. Output ONLY a single unified diff (GNU patch format) relative to the current repository state.
Rules:
- No prose; only diff.
- Correct repo-relative paths.
- Include new/removed/renamed files as needed.
- Keep changes small but meaningful; safe refactors preferred.
- The diff must apply cleanly with: git apply --index --whitespace=fix"
  /\ snd (build_prompts summary1) =
     lit "Review the entire codebase with the goal of raising overall quality and maintainability.
Identify duplicate, near-duplicate, or overly verbose code that can be consolidated, and refactor it to improve clarity and consistency.
Break down monolithic functions into smaller, more focused units and ensure the code is DRY, clean, and easy to understand.
Avoid unnecessary abstraction" ++ [8212%N] ++
     lit "do not introduce classes or functions that add complexity without real benefit"
     ++ [8212%N] ++
     lit "but re-implement outdated or incompatible code in a modern, clean way aligned with the current architecture.
The objective is to deliver a streamlined, high-quality, and consistent codebase that is maintainable, readable, and free of redundant logic.

REPO MAP (truncated):
" ++ summary1.
Proof.
  intros ->. split; [reflexivity |]. split.
  - unfold build_prompts, fst. vm_compute. reflexivity.
  - unfold build_prompts, snd. rewrite !app_assoc.
    apply (f_equal (fun head => head ++ summary2)).
    vm_compute. reflexivity.
Qed.

Lemma build_prompts_deterministic_witness :
  lit "--- a.py ---" = lit "--- a.py ---"
  /\ build_prompts (lit "--- a.py ---") = build_prompts (lit "--- a.py ---").
Proof.
  split; [reflexivity |].
  exact (proj1 (build_prompts_deterministic _ _ eq_refl)).
Defined.

(** ** The File Selector *)

Lemma str_eqb_eq (a b : str) : str_eqb a b = true <-> a = b.
Proof. unfold str_eqb. by rewrite bool_decide_eq_true. Qed.

Lemma mem_elem_of (x : str) (xs : list str) : mem x xs = true <-> x ∈ xs.
Proof.
  unfold mem. rewrite existsb_exists, list_elem_of_In. split.
  - intros (y & Hy & Heq). apply str_eqb_eq in Heq. by subst.
  - intros Hx. exists x. split; [done |]. by apply str_eqb_eq.
Qed.

Lemma filter_sublist {A} (f : A -> bool) (l : list A) :
  List.filter f l `sublist_of` l.
Proof.
  induction l as [| x l IH]; cbn; [constructor |].
  destruct (f x); by constructor.
Qed.

Lemma incl_ext_count : length incl_ext = 22%nat /\ NoDup incl_ext.
Proof.
  split; [reflexivity |].
  apply (bool_decide_unpack _). vm_compute. reflexivity.
Qed.

Section Selector.

Context {U : Unicode} {W : Type} {H : Host W}.

Lemma should_include_file_iff (path : str) :
  should_include_file path = true <->
  lower (suffix path) ∈ incl_ext
  /\ contains (lit "node_modules/") path = false
  /\ contains (lit ".git/") path = false
  /\ contains (lit "vendor/") path = false.
Proof.
  unfold should_include_file. rewrite <- mem_elem_of.
  destruct (mem _ incl_ext), (contains (lit "node_modules/") path),
    (contains (lit ".git/") path), (contains (lit "vendor/") path);
    cbn; intuition congruence.
Qed.

Lemma list_files_unfold (st : state W) :
  list_files st =
  match run (lit "git ls-files") true st with
  | (Return out, st') =>
      (Return (List.filter should_include_file (splitlines out)), st')
  | (SystemExit code, st') => (SystemExit code, st')
  | (Uncaught e, st') => (Uncaught e, st')
  end.
Proof. reflexivity. Qed.

(** C4, amended. A path is selected exactly when its extension,
    lowercased, is one of the 22 allow-listed extensions and none of
    "node_modules/", ".git/", "vendor/" occurs in it; the selected files
    come in the order of the lines of the listing. *)
Theorem file_selector_spec :
  (forall path : str,
     should_include_file path = true <->
     lower (suffix path) ∈ incl_ext
     /\ contains (lit "node_modules/") path = false
     /\ contains (lit ".git/") path = false
     /\ contains (lit "vendor/") path = false)
  /\ length incl_ext = 22%nat
  /\ NoDup incl_ext
  /\ (forall (st st' : state W) (files : list str),
        list_files st = (Return files, st') ->
        exists p : CompletedProcess,
          log st' = log st ++ ran (lit "git ls-files") (inr p)
          /\ files = List.filter should_include_file
                       (splitlines (strip (stdout p)))
          /\ files `sublist_of` splitlines (strip (stdout p))
          /\ forall f, f ∈ files <->
                       f ∈ splitlines (strip (stdout p))
                       /\ should_include_file f = true).
Proof.
  split; [exact should_include_file_iff |].
  split; [apply incl_ext_count |]. split; [apply incl_ext_count |].
  intros st st' files. rewrite list_files_unfold, run_unfold.
  destruct (host_subprocess_run _ _) as [[e | p] w']; [done |].
  destruct (true && negb (returncode p =? 0)); [done |].
  intros [= <- <-]. exists p. cbn [log]. split; [done |]. split; [done |].
  split.
  - apply filter_sublist.
  - intros f. rewrite !list_elem_of_In, filter_In. done.
Qed.

End Selector.

Lemma file_selector_spec_witness :
  let st := {| world := scene (ok []) (ok []) a_diff; log := [] |} in
  exists st',
    list_files st = (Return [lit "a.py"; lit "c/d.JS"], st')
    /\ [lit "a.py"; lit "c/d.JS"] `sublist_of`
       [lit "a.py"; lit "b.txt"; lit "c/d.JS"].
Proof.
  intros st.
  assert (Hrun : list_files st =
                 (Return [lit "a.py"; lit "c/d.JS"],
                  {| world := world st;
                     log := ran (lit "git ls-files") (ok listing) |}))
    by reflexivity.
  eexists. split; [exact Hrun |].
  destruct (proj2 (proj2 (proj2 file_selector_spec)) st _ _ Hrun)
    as (p & Hlog & _ & Hsub & _).
  injection Hlog as <-. exact Hsub.
Defined.

(** No list of 21 extensions describes the selection: 22 distinct
    extensions are selected. *)
Lemma file_selector_not_21 :
  ~ exists allow : list str,
      length allow = 21%nat
      /\ forall path : str,
           should_include_file path = true <->
           lower (suffix path) ∈ allow
           /\ contains (lit "node_modules/") path = false
           /\ contains (lit ".git/") path = false
           /\ contains (lit "vendor/") path = false.
Proof.
  intros (allow & Hlen & Hiff).
  assert (Hsel : forallb (fun e =>
            should_include_file (lit "a" ++ e)
            && str_eqb (lower (suffix (lit "a" ++ e))) e) incl_ext = true)
    by (vm_compute; reflexivity).
  rewrite forallb_forall in Hsel.
  assert (Hsub : incl_ext ⊆+ allow).
  { apply NoDup_submseteq; [apply incl_ext_count |].
    intros e He. apply list_elem_of_In, Hsel, andb_prop in He as [Hin Heq].
    apply str_eqb_eq in Heq. apply Hiff in Hin as [Hin _].
    by rewrite Heq in Hin. }
  apply submseteq_length in Hsub.
  rewrite (proj1 incl_ext_count), Hlen in Hsub. lia.
Qed.

(** ** Startup *)

Section Startup.

Context {U : Unicode} {W : Type} {H : Host W}.

Lemma getenv_cases (environ : gmap str str) (key default_ : str) :
  (environ !! key = None -> getenv environ key default_ = default_)
  /\ (forall v, environ !! key = Some v -> getenv environ key default_ = v).
Proof. unfold getenv. split; [intros -> | intros v ->]; done. Qed.

(** C6. Without [OPENAI_API_KEY] the script dies of a [KeyError] at
    import: nothing has been logged and the world is untouched, so no
    subprocess has run.  With it, the four globals are set, each of the
    other three to its variable or else to its default, and the script
    goes on to [main]. *)
Theorem credential_checked_at_startup (environ : gmap str str)
    (st : state W) :
  (environ !! lit "OPENAI_API_KEY" = None ->
   script environ st = (Uncaught (KeyError (lit "OPENAI_API_KEY")), st)
   /\ exit_status (fst (script environ st)) = 1)
  /\
  (forall key : str,
     environ !! lit "OPENAI_API_KEY" = Some key ->
     exists G : globals,
       load_globals environ st = (Return G, st)
       /\ script environ st = main G st
       /\ OPENAI_API_KEY G = key
       /\ (environ !! lit "BASE_BRANCH" = None ->
           BASE_BRANCH G = lit "master")
       /\ (environ !! lit "CHANGE_BRANCH" = None ->
           CHANGE_BRANCH G =
           lit "codex/refactor-" ++ strftime_YmdHMS (host_utcnow (world st)))
       /\ (environ !! lit "OPENAI_MODEL" = None ->
           OPENAI_MODEL G = lit "gpt-5-codex")
       /\ (forall v, environ !! lit "BASE_BRANCH" = Some v ->
                     BASE_BRANCH G = v)
       /\ (forall v, environ !! lit "CHANGE_BRANCH" = Some v ->
                     CHANGE_BRANCH G = v)
       /\ (forall v, environ !! lit "OPENAI_MODEL" = Some v ->
                     OPENAI_MODEL G = v)).
Proof.
  split.
  - intros Hkey. unfold script, bind, load_globals. rewrite Hkey. done.
  - intros key Hkey. unfold script, bind, load_globals. rewrite Hkey.
    eexists. split; [reflexivity |]. split; [reflexivity |].
    cbn [OPENAI_API_KEY BASE_BRANCH CHANGE_BRANCH OPENAI_MODEL].
    split; [done |].
    repeat split; first [apply (proj1 (getenv_cases _ _ _))
                        | apply (proj2 (getenv_cases _ _ _))].
Qed.

End Startup.

Lemma credential_checked_at_startup_witness :
  let st := {| world := all_fail; log := [] |} in
  let environ : gmap str str := {[ lit "OPENAI_API_KEY" := lit "sk-test" ]} in
  ((∅ : gmap str str) !! lit "OPENAI_API_KEY" = None
   /\ script ∅ st = (Uncaught (KeyError (lit "OPENAI_API_KEY")), st))
  /\ (environ !! lit "OPENAI_API_KEY" = Some (lit "sk-test")
      /\ exists G,
           load_globals environ st = (Return G, st)
           /\ BASE_BRANCH G = lit "master"
           /\ CHANGE_BRANCH G = lit "codex/refactor-20250102030405"
           /\ OPENAI_MODEL G = lit "gpt-5-codex").
Proof.
  intros st environ. split.
  - split; [apply lookup_empty |].
    apply (proj1 (credential_checked_at_startup ∅ st)), lookup_empty.
  - assert (Hkey : environ !! lit "OPENAI_API_KEY" = Some (lit "sk-test"))
      by apply lookup_singleton_eq.
    split; [exact Hkey |].
    destruct (proj2 (credential_checked_at_startup environ st) _ Hkey)
      as (G & Hload & _ & _ & Hbase & Hchange & Hmodel & _).
    exists G. split; [exact Hload |].
    assert (Hne : forall k : str, k <> lit "OPENAI_API_KEY" ->
                                  environ !! k = None)
      by (intros k Hk; by apply lookup_singleton_ne).
    split; [apply Hbase, Hne; discriminate |].
    split; [apply Hchange, Hne; discriminate |].
    apply Hmodel, Hne; discriminate.
Defined.

(** ** The Repository Snapshot Builder *)

Section Snapshot.

Context {W : Type} {H : Host W}.

Lemma successes_sublist (rs : list (str * (exception + str))) :
  map fst (successes rs) `sublist_of` map fst rs.
Proof.
  induction rs as [| [fp [e | text]] rs IH]; cbn; by constructor.
Qed.

Lemma repo_map_loop_spec (fps : list str) (cap : Z) :
  forall (parts : list str) (st : state W),
  exists rs st',
    repo_map_loop fps cap parts st =
    (Return (parts ++ map (fun '(fp, text) => excerpt fp text cap)
                        (successes rs)), st')
    /\ log st' = log st ++ attempts rs
    /\ map fst rs = fps.
Proof.
  induction fps as [| fp fps IH]; intros parts st.
  - exists [], st. cbn. by rewrite !app_nil_r.
  - cbn [repo_map_loop]. unfold bind at 1, try_except, bind, read_text, call, ret.
    destruct (host_read_text fp (world st)) as [[e | text] w'] eqn:Hread.
    + destruct (IH parts {| world := w'; log := log st ++ [ReadText fp (inl e)] |})
        as (rs & st' & Hrun & Hlog & Hfps).
      exists ((fp, inl e) :: rs), st'. rewrite Hrun. cbn [log] in Hlog.
      split; [done |]. split; [| cbn; by rewrite Hfps].
      rewrite Hlog. cbn. by rewrite <- app_assoc.
    + destruct (IH (parts ++ [excerpt fp text cap])
                  {| world := w'; log := log st ++ [ReadText fp (inr text)] |})
        as (rs & st' & Hrun & Hlog & Hfps).
      exists ((fp, inr text) :: rs), st'. rewrite Hrun. cbn [log] in Hlog.
      split; [cbn; by rewrite <- app_assoc |].
      split; [| cbn; by rewrite Hfps].
      rewrite Hlog. cbn. by rewrite <- app_assoc.
Qed.

Lemma repo_map_spec (files : list str) (cap max_files : Z) (st : state W) :
  exists rs st',
    repo_map files cap max_files st =
    (Return (join [chr "010"; chr "010"]
               (map (fun '(fp, text) => excerpt fp text cap) (successes rs))),
     st')
    /\ log st' = log st ++ attempts rs
    /\ map fst rs = slice_to max_files files.
Proof.
  destruct (repo_map_loop_spec (slice_to max_files files) cap [] st)
    as (rs & st' & Hrun & Hlog & Hfps).
  exists rs, st'. unfold repo_map, bind, ret. by rewrite Hrun.
Qed.

(** C7. The snapshot builder always returns.  It reads every file of
    [files[:max_files]] in order, whatever the earlier reads answered,
    and the snapshot is made of the excerpts of the reads that succeeded:
    a file whose read raised leaves nothing in it. *)
Theorem unreadable_files_are_skipped (files : list str)
    (max_per_file_chars max_files : Z) (st : state W) :
  exists (rs : list (str * (exception + str))) (st' : state W),
    repo_map files max_per_file_chars max_files st =
    (Return (join [chr "010"; chr "010"]
               (map (fun '(fp, text) => excerpt fp text max_per_file_chars)
                  (successes rs))),
     st')
    /\ log st' = log st ++ map (fun '(fp, r) => ReadText fp r) rs
    /\ map fst rs = slice_to max_files files
    /\ (forall fp text, (fp, text) ∈ successes rs <-> (fp, inr text) ∈ rs).
Proof.
  destruct (repo_map_spec files max_per_file_chars max_files st)
    as (rs & st' & Hrun & Hlog & Hfps).
  exists rs, st'. repeat split; try done.
  - unfold successes. rewrite list_elem_of_In, in_flat_map.
    intros ([fp' [e | text']] & Hin & Hsel); cbn in Hsel; [done |].
    destruct Hsel as [[= -> ->] | []]. by apply list_elem_of_In.
  - intros Hin. unfold successes. rewrite list_elem_of_In, in_flat_map.
    exists (fp, inr text). split; [by apply list_elem_of_In | by left].
Qed.

(** C5. For every file list, character cap and file count, the
    snapshot is made of excerpts of at most [max_files] files, taken in
    order from the first [max_files] entries of the list; each excerpt
    is the delimiter line with the file's path followed by at most
    [max_per_file_chars] characters of the file. *)
Theorem snapshot_is_bounded (files : list str)
    (max_per_file_chars max_files : nat) (st : state W) :
  exists (sel : list (str * str)) (st' : state W),
    repo_map files (Z.of_nat max_per_file_chars) (Z.of_nat max_files) st =
    (Return (join [chr "010"; chr "010"]
               (map (fun '(fp, body) =>
                       lit "--- " ++ fp ++ lit " ---" ++ [chr "010"] ++ body)
                  sel)),
     st')
    /\ (length sel <= max_files)%nat
    /\ map fst sel `sublist_of` take max_files files
    /\ Forall (fun '(fp, body) =>
                 (length body <= max_per_file_chars)%nat
                 /\ exists text, ReadText fp (inr text) ∈ log st'
                                 /\ body = take max_per_file_chars text) sel.
Proof.
  destruct (repo_map_spec files (Z.of_nat max_per_file_chars)
              (Z.of_nat max_files) st) as (rs & st' & Hrun & Hlog & Hfps).
  unfold slice_to in Hfps.
  destruct (Z.leb_spec 0 (Z.of_nat max_files)) as [_ | ?]; [| lia].
  rewrite Nat2Z.id in Hfps.
  pose (cut := fun '((fp, text) : str * str) =>
                (fp, take max_per_file_chars text) : str * str).
  exists (map cut (successes rs)), st'.
  assert (Hfst : map fst (map cut (successes rs)) = map fst (successes rs)).
  { rewrite map_map. apply map_ext. by intros [fp text]. }
  split; [| split; [| split]].
  - rewrite Hrun, map_map. do 3 f_equal. apply map_ext. intros [fp text].
    unfold excerpt, slice_to.
    destruct (Z.leb_spec 0 (Z.of_nat max_per_file_chars)) as [_ | ?]; [| lia].
    by rewrite Nat2Z.id.
  - pose proof (sublist_length _ _ (successes_sublist rs)) as Hlen.
    rewrite Hfps, length_take, !length_map in Hlen.
    rewrite length_map. etrans; [exact Hlen | apply Nat.le_min_l].
  - rewrite Hfst, <- Hfps. apply successes_sublist.
  - apply Forall_forall. intros [fp body] Hin.
    apply list_elem_of_In, in_map_iff in Hin
      as ([fp' text] & [= -> <-] & Hin).
    split; [rewrite length_take; lia |].
    exists text. split; [| done].
    rewrite Hlog. apply elem_of_app. right.
    apply (list_elem_of_fmap_2 (fun '(fp, r) => ReadText fp r)
             _ (fp, inr text)).
    unfold successes in Hin. apply in_flat_map in Hin
      as ([fp'' [e | text'']] & Hin & Hsel); cbn in Hsel; [done |].
    destruct Hsel as [[= -> ->] | []]. by apply list_elem_of_In.
Qed.

End Snapshot.

(** ** Shell quoting *)

Lemma is_safe_plain (c : N) :
  is_safe c = true ->
  is_blank c = false /\ (c =? squote)%N = false /\ (c =? dquote)%N = false
  /\ sh_special c = false.
Proof.
  unfold is_safe, is_blank, sh_special, squote, dquote, chr.
  cbn [N_of_ascii N_of_digits existsb N.add N.mul Pos.add Pos.mul Pos.succ].
  rewrite !orb_true_iff, !andb_true_iff, !N.leb_le, !N.eqb_eq.
  intros Hsafe.
  rewrite !orb_false_iff, !N.eqb_neq.
  repeat split; lia.
Qed.

Lemma sh_lex_plain (c : N) (cur : option str) (s : str) :
  is_safe c = true ->
  sh_lex Unquoted cur (c :: s) = sh_lex Unquoted (push c cur) s.
Proof.
  intros Hc.
  destruct (is_safe_plain c Hc) as (Hblank & Hsq & Hdq & Hspecial).
  cbn [sh_lex]. by rewrite Hblank, Hsq, Hdq, Hspecial.
Qed.

Lemma sh_lex_safe (s : str) :
  forall (c : N) (cur : option str),
    forallb is_safe (c :: s) = true ->
    sh_lex Unquoted cur (c :: s) = Some [default [] cur ++ c :: s].
Proof.
  induction s as [| c' s IH]; intros c cur Hsafe;
    cbn [forallb] in Hsafe; apply andb_prop in Hsafe as [Hc Hs];
    rewrite (sh_lex_plain c cur _ Hc).
  - reflexivity.
  - rewrite (IH c' (push c cur) Hs). unfold push. cbn [from_option id].
    by rewrite <- app_assoc.
Qed.

Lemma replace_cons (c x : N) (by_ s : str) :
  replace c by_ (x :: s) = (if (x =? c)%N then by_ else [x]) ++ replace c by_ s.
Proof. reflexivity. Qed.

Lemma sh_lex_quoted_char (x : N) (cur s : str) :
  x <> squote ->
  sh_lex SingleQuoted (Some cur) (x :: s)
  = sh_lex SingleQuoted (Some (cur ++ [x])) s.
Proof.
  intros Hx. apply N.eqb_neq in Hx. cbn [sh_lex]. by rewrite Hx.
Qed.

Lemma sh_lex_quoted_quote (cur s : str) :
  sh_lex SingleQuoted (Some cur)
    ([squote; dquote; squote; dquote; squote] ++ s)
  = sh_lex SingleQuoted (Some (cur ++ [squote])) s.
Proof. reflexivity. Qed.

Lemma sh_lex_single_quoted (s : str) :
  forall (cur rest : str),
    sh_lex SingleQuoted (Some cur)
      (replace squote [squote; dquote; squote; dquote; squote] s
       ++ squote :: rest)
    = sh_lex Unquoted (Some (cur ++ s)) rest.
Proof.
  induction s as [| x s IH]; intros cur rest.
  - cbn. by rewrite app_nil_r.
  - rewrite replace_cons, <- app_assoc.
    destruct (N.eqb_spec x squote) as [-> | Hx].
    + rewrite sh_lex_quoted_quote, IH. by rewrite <- app_assoc.
    + change ([x] ++ ?r) with (x :: r).
      rewrite (sh_lex_quoted_char x cur _ Hx), IH. by rewrite <- app_assoc.
Qed.

(** The shell reads a quoted string as one word: the string. *)
Lemma shlex_quote_one_word (b : str) :
  sh_lex Unquoted None (shlex_quote b) = Some [b].
Proof.
  unfold shlex_quote. destruct b as [| c b]; [reflexivity |].
  cbn [truthy negb].
  destruct (forallb is_safe (c :: b)) eqn:Hsafe.
  - by rewrite sh_lex_safe.
  - change ([squote] ++ ?r ++ [squote]) with (squote :: r ++ [squote]).
    cbn [sh_lex]. change (is_blank squote) with false.
    change (squote =? squote)%N with true. cbv iota.
    by rewrite sh_lex_single_quoted.
Qed.

Lemma sh_argv_checkout (b : str) :
  sh_argv (lit "git checkout " ++ shlex_quote b)
  = Some [lit "git"; lit "checkout"; b].
Proof.
  unfold sh_argv.
  change (sh_lex Unquoted None (lit "git checkout " ++ shlex_quote b))
    with (cons (lit "git") <$>
            (cons (lit "checkout") <$> sh_lex Unquoted None (shlex_quote b))).
  by rewrite shlex_quote_one_word.
Qed.

Lemma sh_argv_checkout_b (b : str) :
  sh_argv (lit "git checkout -b " ++ shlex_quote b)
  = Some [lit "git"; lit "checkout"; lit "-b"; b].
Proof.
  unfold sh_argv.
  change (sh_lex Unquoted None (lit "git checkout -b " ++ shlex_quote b))
    with (cons (lit "git") <$>
            (cons (lit "checkout") <$>
               (cons (lit "-b") <$> sh_lex Unquoted None (shlex_quote b)))).
  by rewrite shlex_quote_one_word.
Qed.

Lemma sh_argv_push (b : str) :
  sh_argv (lit "git push -u origin " ++ shlex_quote b)
  = Some [lit "git"; lit "push"; lit "-u"; lit "origin"; b].
Proof.
  unfold sh_argv.
  change (sh_lex Unquoted None (lit "git push -u origin " ++ shlex_quote b))
    with (cons (lit "git") <$>
            (cons (lit "push") <$>
               (cons (lit "-u") <$>
                  (cons (lit "origin") <$>
                     sh_lex Unquoted None (shlex_quote b))))).
  by rewrite shlex_quote_one_word.
Qed.

(** ** The Orchestrator *)

Section Orchestrator.

Context {U : Unicode} {W : Type} {H : Host W}.

Lemma bind_run {B} (cmd : str) (check : bool) (k : str -> M W B)
    (st : state W) :
  bind (run cmd check) k st =
  match host_subprocess_run cmd (world st) with
  | (inl e, w') =>
      (Uncaught e, {| world := w'; log := log st ++ ran cmd (inl e) |})
  | (inr p, w') =>
      if check && negb (returncode p =? 0) then
        (SystemExit (returncode p),
         {| world := w'; log := log st ++ ran cmd (inr p) ++ reported p |})
      else
        k (strip (stdout p))
          {| world := w'; log := log st ++ ran cmd (inr p) |}
  end.
Proof.
  unfold bind at 1. rewrite run_unfold.
  destruct (host_subprocess_run cmd (world st)) as [[e | p] w']; [done |].
  by destruct (check && negb (returncode p =? 0)).
Qed.

Lemma bind_git {B} (args : str) (check : bool) (k : str -> M W B)
    (st : state W) :
  bind (git args check) k st = bind (run (lit "git " ++ args) check) k st.
Proof. reflexivity. Qed.

Lemma bind_list_files {B} (k : list str -> M W B) (st : state W) :
  bind list_files k st =
  bind (run (lit "git " ++ lit "ls-files") true)
    (fun out => k (List.filter should_include_file (splitlines out))) st.
Proof.
  unfold list_files, git, bind, ret.
  by destruct (run _ true st) as [[out | code | e] st'].
Qed.

Lemma bind_repo_map {B} (files : list str) (cap max_files : Z)
    (k : str -> M W B) (st : state W) :
  exists rs w' summary,
    bind (repo_map files cap max_files) k st =
    k summary {| world := w'; log := log st ++ attempts rs |}.
Proof.
  destruct (repo_map_spec files cap max_files st)
    as (rs & [w' l'] & Hrun & Hlog & _).
  exists rs, w'. eexists. unfold bind. rewrite Hrun.
  cbn [log] in Hlog. by rewrite Hlog.
Qed.

Lemma bind_call_openai {B} (G : globals) (system_p user_p : str)
    (k : str -> M W B) (st : state W) :
  exists req,
    bind (call_openai G system_p user_p) k st =
    match host_responses_create req (world st) with
    | (inl e, w') =>
        (Uncaught e,
         {| world := w'; log := log st ++ [ResponsesCreate req (inl e)] |})
    | (inr resp, w') =>
        k (strip (getattr_output_text resp))
          {| world := w';
             log := log st ++ [ResponsesCreate req (inr resp)] |}
    end.
Proof.
  unfold call_openai, bind, responses_create, call, ret.
  match goal with
  | |- context [host_responses_create ?r _] => exists r
  end.
  by destruct (host_responses_create _ (world st)) as [[e | resp] w'].
Qed.

Lemma bind_write_text {B} (fp data : str) (k : unit -> M W B)
    (st : state W) :
  bind (write_text fp data) k st =
  match host_write_text fp data (world st) with
  | (inl e, w') =>
      (Uncaught e,
       {| world := w'; log := log st ++ [WriteText fp data (inl e)] |})
  | (inr u, w') =>
      k u {| world := w'; log := log st ++ [WriteText fp data (inr u)] |}
  end.
Proof.
  unfold write_text, bind, call.
  by destruct (host_write_text fp data (world st)) as [[e | u] w'].
Qed.

Lemma bind_print {B} (s : str) (k : unit -> M W B) (st : state W) :
  bind (print s) k st =
  k tt {| world := world st; log := log st ++ [Print s] |}.
Proof. reflexivity. Qed.

End Orchestrator.

(** *** Reading logs *)

Lemma commands_app (l1 l2 : list event) :
  commands (l1 ++ l2) = commands l1 ++ commands l2.
Proof. apply flat_map_app. Qed.

Lemma commands_ran (cmd : str) (r : exception + CompletedProcess) :
  commands (ran cmd r) = [cmd].
Proof. reflexivity. Qed.

Lemma commands_reported (p : CompletedProcess) : commands (reported p) = [].
Proof. reflexivity. Qed.

Lemma commands_attempts (rs : list (str * (exception + str))) :
  commands (attempts rs) = [].
Proof. induction rs as [| [fp r] rs IH]; [done | exact IH]. Qed.

Lemma writes_app (l1 l2 : list event) :
  writes (l1 ++ l2) = writes l1 ++ writes l2.
Proof. apply flat_map_app. Qed.

Lemma writes_ran (cmd : str) (r : exception + CompletedProcess) :
  writes (ran cmd r) = [].
Proof. reflexivity. Qed.

Lemma writes_attempts (rs : list (str * (exception + str))) :
  writes (attempts rs) = [].
Proof. induction rs as [| [fp r] rs IH]; [done | exact IH]. Qed.

Lemma elem_of_attempts (e : event) (rs : list (str * (exception + str))) :
  e ∈ attempts rs -> exists fp r, e = ReadText fp r.
Proof.
  unfold attempts. rewrite list_elem_of_In, in_map_iff.
  intros ([fp r] & <- & _). eauto.
Qed.

Lemma writes_reported (p : CompletedProcess) : writes (reported p) = [].
Proof. reflexivity. Qed.

Ltac read_log :=
  rewrite ?commands_app, ?commands_ran, ?commands_reported,
    ?commands_attempts, ?writes_app, ?writes_ran, ?writes_reported,
    ?writes_attempts.

(** *** Running [main] step by step

    [run_main] follows [main] through every answer of the host, from
    a hypothesis [exec (main G) w = (o, st)]: one goal per way the run can
    end, with [o] and [st] replaced by that outcome and that log. *)

Ltac finish Hrun :=
  apply pair_equal_spec in Hrun as [<- <-]; cbn [world log fst snd] in *;
  rewrite <- ?app_assoc, ?app_nil_l in *.

Ltac step_run Hrun :=
  rewrite ?bind_git, ?bind_list_files in Hrun;
  rewrite bind_run in Hrun; cbn [world log] in Hrun;
  match type of Hrun with
  | context [host_subprocess_run ?c ?w] =>
      let e := fresh "e" in
      let p := fresh "p" in
      let w' := fresh "w" in
      let Hrc := fresh "Hrc" in
      destruct (host_subprocess_run c w) as [[e | p] w'];
      [ finish Hrun
      | destruct (returncode p =? 0) eqn:Hrc;
        cbn [andb negb] in Hrun;
        [ | first [ finish Hrun | idtac ] ] ]
  end.

Ltac step_repo_map :=
  match goal with
  | Hrun : bind (repo_map ?f ?c ?n) ?k ?st = _ |- _ =>
      let rs := fresh "rs" in
      let w' := fresh "w" in
      let summary := fresh "summary" in
      let Heq := fresh "Heq" in
      destruct (bind_repo_map f c n k st) as (rs & w' & summary & Heq);
      rewrite Heq in Hrun; clear Heq; cbn [world log] in Hrun
  end.

Ltac step_openai Hrun :=
  unfold build_prompts in Hrun; cbv beta iota in Hrun;
  match type of Hrun with
  | bind (call_openai ?G ?s ?u) ?k ?st = _ =>
      let req := fresh "req" in
      let e := fresh "e" in
      let resp := fresh "resp" in
      let w' := fresh "w" in
      let Heq := fresh "Heq" in
      destruct (bind_call_openai G s u k st) as (req & Heq);
      rewrite Heq in Hrun; clear Heq; cbn [world log] in Hrun;
      destruct (host_responses_create req _) as [[e | resp] w'];
      [ finish Hrun | ]
  end.

Ltac step_write Hrun :=
  rewrite bind_write_text in Hrun; cbn [world log] in Hrun;
  match type of Hrun with
  | context [host_write_text ?f ?d ?w] =>
      let e := fresh "e" in
      let u := fresh "u" in
      let w' := fresh "w" in
      destruct (host_write_text f d w) as [[e | u] w'];
      [ finish Hrun | ]
  end.

Ltac step_prints Hrun :=
  rewrite ?bind_print in Hrun; unfold ret, print, record in Hrun;
  cbn [world log] in Hrun; finish Hrun.

Ltac split_diff :=
  match goal with
  | Hrun : context [negb (startswith ?d ?a || startswith ?d ?b)] |- _ =>
      let Hdiff := fresh "Hdiff" in
      let Hdiff' := fresh "Hdiff" in
      destruct (startswith d a) eqn:Hdiff;
      [ | destruct (startswith d b) eqn:Hdiff' ];
      cbn [orb negb] in Hrun
  end.

Ltac split_status :=
  match goal with
  | Hrun : context [negb (truthy ?s)] |- _ =>
      let Hstatus := fresh "Hstatus" in
      destruct s eqn:Hstatus; cbn [truthy negb] in Hrun
  end.

Ltac on_run tac :=
  match goal with
  | Hrun : _ = (_, _) |- _ => tac Hrun
  end.

Ltac run_main :=
  on_run ltac:(fun Hrun => unfold exec, main in Hrun);
  on_run step_run; try on_run step_run; try on_run step_run;
  try (step_repo_map; on_run step_openai);
  try split_diff;
  try on_run step_prints;
  try on_run step_run;
  try on_run step_write;
  try on_run step_run;
  try on_run step_run;
  try split_status;
  try on_run step_prints;
  try on_run step_run;
  try on_run step_run;
  try on_run step_prints.

(** [log_cases Hin] splits [Hin : e ∈ log] into one goal per event of
    the log, with [Hin : e = that event]. *)
Ltac log_cases Hin :=
  repeat match type of Hin with
         | _ ∈ _ ++ _ => apply elem_of_app in Hin as [Hin | Hin]
         | _ ∈ ran _ _ => unfold ran in Hin
         | _ ∈ reported _ => unfold reported in Hin
         | _ ∈ _ :: _ => apply elem_of_cons in Hin as [Hin | Hin]
         | _ ∈ [] => by apply elem_of_nil in Hin
         | _ ∈ attempts _ => apply elem_of_attempts in Hin as (? & ? & Hin)
         end.

Ltac ends_with :=
  repeat first [ reflexivity | apply suffix_app_r ].

Section Runs.

Context {U : Unicode} {W : Type} {H : Host W}.

Variable G : globals.

(** C1. When the model's text, stripped, starts neither with
    "diff --git" nor with "--- ", the run ends normally (exit status 0);
    the only commands it has run are the checkout of the base branch, the
    pull and the file listing, it has written no file, and the last two
    things it did were to print the notice and the first 2000 characters
    of the text. *)
Theorem non_diff_response_changes_nothing (w : W) (req : request)
    (resp : Response) :
  ResponsesCreate req (inr resp) ∈ trace_of (main G) w ->
  startswith (strip (getattr_output_text resp)) (lit "diff --git") = false ->
  startswith (strip (getattr_output_text resp)) (lit "--- ") = false ->
  outcome_of (main G) w = Return tt
  /\ exit_status (outcome_of (main G) w) = 0
  /\ commands (trace_of (main G) w) =
     [ lit "git checkout " ++ shlex_quote (BASE_BRANCH G);
       lit "git pull --ff-only";
       lit "git ls-files" ]
  /\ writes (trace_of (main G) w) = []
  /\ [ ResponsesCreate req (inr resp);
       Print no_diff_message;
       Print (take 2000 (strip (getattr_output_text resp))) ]
     `suffix_of` trace_of (main G) w.
Proof.
  unfold outcome_of, trace_of.
  destruct (exec (main G) w) as [o st] eqn:Hrun.
  intros Hin Hd1 Hd2.
  run_main; log_cases Hin; try discriminate Hin;
    injection Hin as -> ->; try congruence.
  split; [done |]. split; [done |].
  split; [by read_log |]. split; [by read_log |].
  ends_with.
Qed.

(** Two logged events for different command lines differ: compare the
    first six characters of the commands. *)
Ltac cmd_clash Hin :=
  exfalso;
  apply (f_equal (fun e => match e with
                           | SubprocessRun c _ => take 6 c
                           | _ => []
                           end)) in Hin;
  vm_compute in Hin; discriminate Hin.

Ltac same_event Hin :=
  first [ discriminate Hin | cmd_clash Hin | idtac ].

(** C2, amended. Once the status query has answered: if its stripped
    output is empty, the run ends normally after printing the notice
    and the status query is the last command it has run; otherwise the
    commit with the fixed message is the next command, and the push of
    the change branch follows when the commit exits with 0, while a
    commit that exits with another code ends the run with that code,
    without a push. *)
Theorem commit_and_push_follow_status (w : W) (p : CompletedProcess) :
  SubprocessRun (lit "git status --porcelain") (inr p)
    ∈ trace_of (main G) w ->
  (strip (stdout p) = [] ->
   outcome_of (main G) w = Return tt
   /\ commands (trace_of (main G) w) = take 6 (main_commands G)
   /\ ran (lit "git status --porcelain") (inr p)
      ++ [Print no_changes_message] `suffix_of` trace_of (main G) w)
  /\
  (strip (stdout p) <> [] ->
   take 7 (main_commands G) `prefix_of` commands (trace_of (main G) w)
   /\ main_commands G !! 6%nat =
      Some (lit "git commit -m " ++ [dquote]
            ++ lit "Nightly automated refactor (Codex)" ++ [dquote])
   /\ main_commands G !! 7%nat =
      Some (lit "git push -u origin " ++ shlex_quote (CHANGE_BRANCH G))
   /\ (forall pc : CompletedProcess,
         SubprocessRun (lit "git " ++ commit_args) (inr pc)
           ∈ trace_of (main G) w ->
         (returncode pc = 0 ->
          commands (trace_of (main G) w) = main_commands G)
         /\ (returncode pc <> 0 ->
             outcome_of (main G) w = SystemExit (returncode pc)
             /\ commands (trace_of (main G) w) = take 7 (main_commands G)))).
Proof.
  unfold outcome_of, trace_of.
  destruct (exec (main G) w) as [o st] eqn:Hrun.
  intros Hin.
  run_main; log_cases Hin; same_event Hin;
    assert (Hp : p = ltac:(match type of Hin with
                           | _ = SubprocessRun _ (inr ?q) => exact q
                           end)) by congruence;
    subst p; clear Hin.
  all: (split; [intros Hempty | intros Hfull]; try congruence).
  all: try (split; [done |]; split; [by read_log | by ends_with]).
  all: split; [read_log; first [by exists [] | by eexists [_]] |].
  all: split; [reflexivity |]; split; [reflexivity |].
  all: intros pc Hc; log_cases Hc; same_event Hc;
    assert (Hpc : pc = ltac:(match type of Hc with
                             | _ = SubprocessRun _ (inr ?q) => exact q
                             end)) by congruence;
    subst pc; clear Hc.
  all: split; [intros Hok | intros Hbad];
    try (apply Z.eqb_eq in Hok); try (apply Z.eqb_neq in Hbad);
    try congruence.
  all: try (split; [done |]); by read_log.
Qed.

Ltac exit_codes :=
  repeat match goal with
         | Hrc : (_ =? _) = true |- _ => apply Z.eqb_eq in Hrc
         | Hrc : (_ =? _) = false |- _ => apply Z.eqb_neq in Hrc
         end.

Ltac str_clash Heq :=
  exfalso; apply (f_equal (take 6)) in Heq; vm_compute in Heq;
  discriminate Heq.

(** C10. A subprocess that exits with a non-zero code: if it is the
    status query and its stripped output is empty, the run ends normally
    (exit status 0) right after printing that there are no changes; if
    it is any other command of [main], the run ends there with that exit
    code, after reporting the captured output. *)
Theorem status_failure_is_tolerated (w : W) (cmd : str)
    (p : CompletedProcess) :
  SubprocessRun cmd (inr p) ∈ trace_of (main G) w ->
  returncode p <> 0 ->
  (cmd = lit "git status --porcelain" ->
   strip (stdout p) = [] ->
   outcome_of (main G) w = Return tt
   /\ exit_status (outcome_of (main G) w) = 0
   /\ ran cmd (inr p) ++ [Print no_changes_message]
      `suffix_of` trace_of (main G) w)
  /\
  (cmd <> lit "git status --porcelain" ->
   cmd ∈ main_commands G
   /\ outcome_of (main G) w = SystemExit (returncode p)
   /\ ran cmd (inr p) ++ reported p `suffix_of` trace_of (main G) w).
Proof.
  unfold outcome_of, trace_of.
  destruct (exec (main G) w) as [o st] eqn:Hrun.
  intros Hin Hcode.
  run_main; log_cases Hin; try discriminate Hin;
    injection Hin as -> ->; exit_codes; try congruence.
  all: split; [intros Hcmd Hempty | intros Hcmd];
    try (by destruct Hcmd); try (str_clash Hcmd); try congruence.
  all: try (split; [done |]; split; [done |]; by ends_with).
  all: split;
    [ unfold main_commands;
      repeat first [ apply list_elem_of_here | apply list_elem_of_further ]
    | split; [done | by ends_with] ].
Qed.

(** C9. The commands a run hands to the shell are the first commands
    of [main_commands], in order.  The base branch and the change branch
    enter the checkout, the branch creation and the push through
    [shlex_quote], and the shell reads each of these command lines as one
    program with the branch name, whatever it is, as one argument. *)
Theorem branch_names_are_single_arguments (w : W) :
  commands (trace_of (main G) w) `prefix_of` main_commands G
  /\ main_commands G !! 0%nat =
     Some (lit "git checkout " ++ shlex_quote (BASE_BRANCH G))
  /\ main_commands G !! 3%nat =
     Some (lit "git checkout -b " ++ shlex_quote (CHANGE_BRANCH G))
  /\ main_commands G !! 7%nat =
     Some (lit "git push -u origin " ++ shlex_quote (CHANGE_BRANCH G))
  /\ sh_argv (lit "git checkout " ++ shlex_quote (BASE_BRANCH G)) =
     Some [lit "git"; lit "checkout"; BASE_BRANCH G]
  /\ sh_argv (lit "git checkout -b " ++ shlex_quote (CHANGE_BRANCH G)) =
     Some [lit "git"; lit "checkout"; lit "-b"; CHANGE_BRANCH G]
  /\ sh_argv (lit "git push -u origin " ++ shlex_quote (CHANGE_BRANCH G)) =
     Some [lit "git"; lit "push"; lit "-u"; lit "origin"; CHANGE_BRANCH G]
  /\ Forall2 (fun cmd argv => sh_argv cmd = Some argv)
       (main_commands G) (main_argvs G).
Proof.
  split.
  { unfold trace_of. destruct (exec (main G) w) as [o st] eqn:Hrun.
    run_main; read_log; eexists; reflexivity. }
  split; [reflexivity |]. split; [reflexivity |]. split; [reflexivity |].
  split; [apply sh_argv_checkout |]. split; [apply sh_argv_checkout_b |].
  split; [apply sh_argv_push |].
  unfold main_commands, main_argvs.
  apply Forall2_cons; split; [exact (sh_argv_checkout _) |].
  apply Forall2_cons; split; [vm_compute; reflexivity |].
  apply Forall2_cons; split; [vm_compute; reflexivity |].
  apply Forall2_cons; split; [exact (sh_argv_checkout_b _) |].
  apply Forall2_cons; split; [vm_compute; reflexivity |].
  apply Forall2_cons; split; [vm_compute; reflexivity |].
  apply Forall2_cons; split; [vm_compute; reflexivity |].
  apply Forall2_cons; split; [exact (sh_argv_push _) |].
  apply Forall2_nil_2.
Qed.

End Runs.

(** *** Runs of the scripted host *)

Ltac in_log :=
  apply list_elem_of_In; vm_compute;
  repeat first [ left; reflexivity | right ].

Lemma non_diff_response_changes_nothing_witness :
  let w := scene (ok modified) (ok []) refusal in
  let resp := {| output_text := Some refusal; resp_str := [] |} in
  exists req,
    ResponsesCreate req (inr resp) ∈ trace_of (main nightly) w
    /\ startswith (strip (getattr_output_text resp)) (lit "diff --git")
       = false
    /\ startswith (strip (getattr_output_text resp)) (lit "--- ") = false
    /\ outcome_of (main nightly) w = Return tt
    /\ commands (trace_of (main nightly) w) =
       [lit "git checkout master"; lit "git pull --ff-only";
        lit "git ls-files"].
Proof.
  intros w resp.
  assert (Hin : exists req,
             ResponsesCreate req (inr resp) ∈ trace_of (main nightly) w)
    by (eexists; in_log).
  destruct Hin as [req Hin]. exists req.
  destruct (non_diff_response_changes_nothing nightly w req resp Hin
              eq_refl eq_refl) as (Hout & _ & Hcmds & _).
  split; [exact Hin |]. split; [reflexivity |]. split; [reflexivity |].
  split; [exact Hout | exact Hcmds].
Defined.

Lemma commit_and_push_follow_status_witness :
  let w := scene (ok modified) (ok []) a_diff in
  let p := {| returncode := 0; stdout := modified; stderr := [] |} in
  let pc := {| returncode := 0; stdout := []; stderr := [] |} in
  SubprocessRun (lit "git status --porcelain") (inr p)
    ∈ trace_of (main nightly) w
  /\ strip (stdout p) <> []
  /\ SubprocessRun (lit "git " ++ commit_args) (inr pc)
       ∈ trace_of (main nightly) w
  /\ returncode pc = 0
  /\ commands (trace_of (main nightly) w) = main_commands nightly.
Proof.
  intros w p pc.
  assert (Hin : SubprocessRun (lit "git status --porcelain") (inr p)
                  ∈ trace_of (main nightly) w) by in_log.
  assert (Hfull : strip (stdout p) <> []) by discriminate.
  assert (Hc : SubprocessRun (lit "git " ++ commit_args) (inr pc)
                 ∈ trace_of (main nightly) w) by in_log.
  destruct (commit_and_push_follow_status nightly w p Hin) as [_ Hpush].
  destruct (Hpush Hfull) as (_ & _ & _ & Hcommit).
  destruct (Hcommit pc Hc) as [Hok _].
  split; [exact Hin |]. split; [exact Hfull |]. split; [exact Hc |].
  split; [reflexivity |]. exact (Hok eq_refl).
Defined.

(** A run where the status output is not empty and the commit fails:
    the commit is attempted, the push is not. *)
Lemma no_push_after_failed_commit :
  let w := scene (ok modified) (failed 1 (lit "nothing to commit")) a_diff in
  ~ (forall p : CompletedProcess,
       SubprocessRun (lit "git status --porcelain") (inr p)
         ∈ trace_of (main nightly) w ->
       strip (stdout p) <> [] ->
       lit "git " ++ commit_args ∈ commands (trace_of (main nightly) w)
       /\ lit "git push -u origin " ++ shlex_quote (CHANGE_BRANCH nightly)
          ∈ commands (trace_of (main nightly) w)).
Proof.
  intros w Hclaim.
  assert (Hin : SubprocessRun (lit "git status --porcelain")
                  (ok modified) ∈ trace_of (main nightly) w) by in_log.
  destruct (Hclaim _ Hin) as [_ Hpush]; [discriminate |].
  revert Hpush. apply (bool_decide_unpack (_ ∉ _)).
  vm_compute. reflexivity.
Qed.

Lemma status_failure_is_tolerated_witness :
  let w := scene (failed 128 (lit "fatal: not a git repository")) (ok [])
             a_diff in
  let p := {| returncode := 128; stdout := [];
              stderr := lit "fatal: not a git repository" |} in
  let q := {| returncode := 3; stdout := lit " partial ";
              stderr := lit "fatal: boom" |} in
  (SubprocessRun (lit "git status --porcelain") (inr p)
     ∈ trace_of (main nightly) w
   /\ returncode p <> 0
   /\ strip (stdout p) = []
   /\ outcome_of (main nightly) w = Return tt)
  /\ (SubprocessRun (lit "git checkout master") (inr q)
        ∈ trace_of (main nightly) all_fail
      /\ returncode q <> 0
      /\ lit "git checkout master" <> lit "git status --porcelain"
      /\ outcome_of (main nightly) all_fail = SystemExit 3).
Proof.
  intros w p q. split.
  - assert (Hin : SubprocessRun (lit "git status --porcelain") (inr p)
                    ∈ trace_of (main nightly) w) by in_log.
    assert (Hcode : returncode p <> 0) by discriminate.
    destruct (status_failure_is_tolerated nightly w _ p Hin Hcode)
      as [Hstatus _].
    destruct (Hstatus eq_refl eq_refl) as (Hout & _).
    split; [exact Hin |]. split; [exact Hcode |]. split; [reflexivity |].
    exact Hout.
  - assert (Hin : SubprocessRun (lit "git checkout master") (inr q)
                    ∈ trace_of (main nightly) all_fail) by in_log.
    assert (Hcode : returncode q <> 0) by discriminate.
    assert (Hcmd : lit "git checkout master" <> lit "git status --porcelain")
      by discriminate.
    destruct (status_failure_is_tolerated nightly all_fail _ q Hin Hcode)
      as [_ Hother].
    destruct (Hother Hcmd) as (_ & Hout & _).
    split; [exact Hin |]. split; [exact Hcode |]. split; [exact Hcmd |].
    exact Hout.
Defined.

(** *** The end-to-end scenarios *)

(** A well-formed diff and a modified tree: branch, commit, push. *)
Example scenario_pushed :
  let w := scene (ok modified) (ok []) a_diff in
  outcome_of (main nightly) w = Return tt
  /\ commands (trace_of (main nightly) w) =
     [ lit "git checkout master";
       lit "git pull --ff-only";
       lit "git ls-files";
       lit "git checkout -b codex/refactor-20250102030405";
       lit "git apply --index --whitespace=fix .codex.patch";
       lit "git status --porcelain";
       lit "git commit -m " ++ [dquote]
       ++ lit "Nightly automated refactor (Codex)" ++ [dquote];
       lit "git push -u origin codex/refactor-20250102030405" ]
  /\ writes (trace_of (main nightly) w) = [lit ".codex.patch"].
Proof. vm_compute. done. Qed.

(** A refusal: nothing after the file listing. *)
Example scenario_refused :
  let w := scene (ok modified) (ok []) refusal in
  outcome_of (main nightly) w = Return tt
  /\ commands (trace_of (main nightly) w) =
     [ lit "git checkout master"; lit "git pull --ff-only";
       lit "git ls-files" ]
  /\ writes (trace_of (main nightly) w) = [].
Proof. vm_compute. done. Qed.

(** No credential: the script stops before it does anything. *)
Example scenario_no_credential :
  exec (script ∅) all_fail =
  (Uncaught (KeyError (lit "OPENAI_API_KEY")),
   {| world := all_fail; log := [] |}).
Proof. reflexivity. Qed.

(** A branch name that tries to run a command of its own. *)
Example hostile_branch_name :
  shlex_quote (lit "x; rm -rf $HOME 'y'") =
  lit "'x; rm -rf $HOME '" ++ [dquote] ++ lit "'" ++ [dquote] ++ lit "'y'"
  ++ [dquote] ++ lit "'" ++ [dquote] ++ lit "''"
  /\ sh_argv (lit "git checkout " ++ shlex_quote (lit "x; rm -rf $HOME 'y'")) =
     Some [lit "git"; lit "checkout"; lit "x; rm -rf $HOME 'y'"]
  /\ sh_argv (lit "git checkout " ++ lit "x; rm -rf $HOME 'y'") = None.
Proof. vm_compute. done. Qed.

(** ** Edge cases of the helpers *)

Lemma lstrip_nil (s : str) : lstrip s = [] <-> forallb isspace s = true.
Proof.
  induction s as [| c s IH]; cbn; [done |].
  destruct (isspace c); cbn; [exact IH | done].
Qed.

Lemma lstrip_head (s : str) (c : N) (t : str) :
  lstrip s = c :: t -> isspace c = false.
Proof.
  induction s as [| x s IH]; cbn; [done |].
  destruct (isspace x) eqn:Hx; [exact IH | congruence].
Qed.

Lemma lstrip_keeps (a : str) (c : N) (b : str) :
  isspace c = false -> lstrip (a ++ c :: b) = lstrip a ++ c :: b.
Proof.
  intros Hc. induction a as [| x a IH]; cbn; [by rewrite Hc |].
  by destruct (isspace x).
Qed.

Lemma forallb_rev {A} (f : A -> bool) (l : list A) :
  forallb f (rev l) = forallb f l.
Proof.
  induction l as [| x l IH]; cbn; [done |].
  rewrite forallb_app, IH. cbn. rewrite andb_true_r. apply andb_comm.
Qed.

Lemma strip_cases (s : str) :
  (strip s = [] /\ forallb isspace s = true)
  \/ (exists c t, lstrip s = c :: t /\ isspace c = false
                  /\ strip s = c :: rev (lstrip (rev t))).
Proof.
  unfold strip, rstrip.
  destruct (lstrip s) as [| c t] eqn:Hl.
  - left. split; [done | by apply lstrip_nil].
  - right. exists c, t. pose proof (lstrip_head _ _ _ Hl) as Hc.
    split; [done |]. split; [done |].
    cbn [rev]. rewrite (lstrip_keeps _ _ [] Hc), rev_app_distr. done.
Qed.

Lemma strip_nil (s : str) : strip s = [] <-> forallb isspace s = true.
Proof.
  destruct (strip_cases s) as [[Hs Hall] | (c & t & Hl & Hc & Hs)].
  - by rewrite Hs, Hall.
  - rewrite Hs. split; [done |]. intros Hall.
    apply lstrip_nil in Hall. congruence.
Qed.

Lemma strip_last (s : str) (c : N) (out : str) :
  strip s = c :: out -> isspace (List.last (c :: out) c) = false.
Proof.
  unfold strip, rstrip. intros Hs.
  destruct (lstrip (rev (lstrip s))) as [| x u] eqn:Hl; [done |].
  pose proof (lstrip_head _ _ _ Hl) as Hx.
  rewrite <- Hs. cbn [rev]. by rewrite last_last.
Qed.

Lemma digit_is_safe (k n : N) : is_safe (digit k n) = true.
Proof.
  unfold digit. pose proof (N.mod_upper_bound (n / 10 ^ k) 10) as Hlt.
  set (d := ((n / 10 ^ k) mod 10)%N) in *.
  assert (Hd : (d < 10)%N) by (apply Hlt; discriminate).
  unfold is_safe.
  destruct (N.leb_spec 48 (48 + d)) as [_ | ?]; [| lia].
  destruct (N.leb_spec (48 + d) 57) as [_ | ?]; [| lia].
  reflexivity.
Qed.

Lemma startswith_app (sub post : str) : startswith (sub ++ post) sub = true.
Proof.
  induction sub as [| c sub IH]; cbn; [by destruct post |].
  by rewrite N.eqb_refl, IH.
Qed.

Lemma contains_app (sub pre post : str) :
  contains sub (pre ++ sub ++ post) = true.
Proof.
  induction pre as [| c pre IH].
  - cbn [app]. destruct (sub ++ post) eqn:Heq; cbn [contains];
      by rewrite <- Heq, startswith_app.
  - cbn [app contains]. rewrite IH. apply orb_true_r.
Qed.

Lemma split_nonempty (c : N) (s : str) : split c s <> [].
Proof.
  induction s as [| x s IH]; cbn; [done |].
  destruct (x =? c)%N; [done |]. by destruct (split c s).
Qed.

Lemma split_app (c : N) (a b : str) :
  split c (a ++ c :: b) = split c a ++ split c b.
Proof.
  induction a as [| x a IH]; cbn.
  - by rewrite N.eqb_refl.
  - destruct (x =? c)%N; [by rewrite IH |].
    rewrite IH. pose proof (split_nonempty c a) as Hne.
    by destruct (split c a).
Qed.

Lemma split_one (c : N) (s : str) :
  forallb (fun x => negb (x =? c)%N) s = true -> split c s = [s].
Proof.
  induction s as [| x s IH]; cbn; [done |].
  intros Hs. apply andb_prop in Hs as [Hx Hs].
  apply negb_true_iff in Hx. by rewrite Hx, (IH Hs).
Qed.

Lemma filter_last {A} (f : A -> bool) (l : list A) (x d : A) :
  f x = true -> List.last (List.filter f (l ++ [x])) d = x.
Proof.
  intros Hx. rewrite List.filter_app. cbn. rewrite Hx. apply last_last.
Qed.

Lemma path_name_of_component (name : str) :
  forallb (fun x => negb (x =? chr "/")%N) name = true ->
  name <> [] -> name <> lit "." ->
  forall dir, path_name (dir ++ chr "/" :: name) = name
              /\ path_name name = name.
Proof.
  intros Hname Hne Hdot dir.
  assert (Hkeep : negb (str_eqb name []) && negb (str_eqb name (lit "."))
                  = true).
  { unfold str_eqb. by rewrite !bool_decide_eq_false_2. }
  unfold path_name. split.
  - rewrite split_app, (split_one _ _ Hname). by apply filter_last.
  - rewrite (split_one _ _ Hname). by apply (filter_last _ []).
Qed.

Lemma rfind_from_absent (c : N) (s : str) (i found : Z) :
  forallb (fun x => negb (x =? c)%N) s = true -> rfind_from c s i found = found.
Proof.
  revert i found. induction s as [| x s IH]; intros i found; cbn; [done |].
  intros Hs. apply andb_prop in Hs as [Hx Hs].
  apply negb_true_iff in Hx. by rewrite Hx, (IH _ _ Hs).
Qed.

Lemma join_length (sep : str) (parts : list str) :
  (length (join sep parts)
   <= list_sum (map (fun p => length p + length sep) parts))%nat.
Proof.
  induction parts as [| p parts IH]; cbn [join]; [cbn; lia |].
  destruct parts as [| q parts]; [cbn; lia |].
  rewrite !length_app. remember (join sep (q :: parts)) as rest.
  unfold list_sum in *. cbn [map fold_right] in *. lia.
Qed.

Section Edges.
Context {U : Unicode} {W : Type} {H : Host W}.

(** X6. Without [CHANGE_BRANCH] in the environment, and with a clock in
    the years 1000 to 9999 (where [%Y] gives four digits), the change
    branch is "codex/refactor-" followed by the fourteen digits of the
    clock: 29 characters, all of them safe, so that [shlex_quote] leaves
    the name as it is. *)
Theorem default_change_branch_needs_no_quotes (environ : gmap str str)
    (st : state W) (key : str) :
  environ !! lit "OPENAI_API_KEY" = Some key ->
  environ !! lit "CHANGE_BRANCH" = None ->
  (1000 <= year (host_utcnow (world st)) <= 9999)%N ->
  exists G : globals,
    load_globals environ st = (Return G, st)
    /\ shlex_quote (CHANGE_BRANCH G) = CHANGE_BRANCH G
    /\ length (CHANGE_BRANCH G) = 29%nat
    /\ lit "codex/refactor-" `prefix_of` CHANGE_BRANCH G.
Proof.
  intros Hkey Hchange _. unfold load_globals, getenv. rewrite Hkey, Hchange.
  eexists. split; [reflexivity |]. cbn [CHANGE_BRANCH default from_option].
  split; [| split; [reflexivity | by eexists]].
  unfold shlex_quote.
  assert (forallb is_safe
            (lit "codex/refactor-" ++ strftime_YmdHMS (host_utcnow (world st)))
          = true) as ->.
  { rewrite forallb_app. apply andb_true_intro. split; [reflexivity |].
    unfold strftime_YmdHMS, two_digits. cbn [app forallb].
    by rewrite !digit_is_safe. }
  reflexivity.
Qed.

(** X8. A path in which "node_modules/", ".git/" or "vendor/" occurs
    anywhere, also as the end of a longer directory name, is not
    selected, whatever its extension. *)
Theorem excluded_anywhere_in_the_path (pre post : str) :
  should_include_file (pre ++ lit "node_modules/" ++ post) = false
  /\ should_include_file (pre ++ lit ".git/" ++ post) = false
  /\ should_include_file (pre ++ lit "vendor/" ++ post) = false.
Proof.
  unfold should_include_file.
  rewrite (contains_app (lit "node_modules/") pre post),
    (contains_app (lit ".git/") pre post),
    (contains_app (lit "vendor/") pre post).
  cbn [negb]. rewrite !andb_false_r. done.
Qed.

(** X9. The extension of a path is the one of its last component: the
    directories before it add nothing, and, the excluded substrings
    apart, a file in a directory is selected exactly when the extension
    of its name is allow-listed. *)
Theorem extension_comes_from_the_last_component (dir name : str) :
  forallb (fun x => negb (x =? chr "/")%N) name = true ->
  name <> [] -> name <> lit "." ->
  suffix (dir ++ chr "/" :: name) = suffix name
  /\ (contains (lit "node_modules/") (dir ++ chr "/" :: name) = false ->
      contains (lit ".git/") (dir ++ chr "/" :: name) = false ->
      contains (lit "vendor/") (dir ++ chr "/" :: name) = false ->
      should_include_file (dir ++ chr "/" :: name)
      = mem (lower (suffix name)) incl_ext).
Proof.
  intros Hname Hne Hdot.
  destruct (path_name_of_component name Hname Hne Hdot dir) as [Hdir Hbase].
  assert (Hsuffix : suffix (dir ++ chr "/" :: name) = suffix name)
    by (unfold suffix; by rewrite Hdir, Hbase).
  split; [exact Hsuffix |].
  intros Hn Hg Hv. unfold should_include_file.
  rewrite Hsuffix, Hn, Hg, Hv. cbn [negb]. rewrite !andb_true_r.
  by destruct (mem _ _).
Qed.

(** X10. A file whose name is a dot followed by a dot-free rest, such
    as ".yml" or "conf/.json", has no extension for [pathlib] and is not
    selected. *)
Theorem dotfiles_are_not_selected (dir rest : str) :
  forallb (fun x => negb (x =? chr "/")%N) rest = true ->
  forallb (fun x => negb (x =? chr ".")%N) rest = true ->
  rest <> [] ->
  should_include_file (chr "." :: rest) = false
  /\ should_include_file (dir ++ chr "/" :: chr "." :: rest) = false.
Proof.
  intros Hslash Hdots Hne.
  assert (Hname : forallb (fun x => negb (x =? chr "/")%N) (chr "." :: rest)
                  = true) by (cbn [forallb]; by rewrite Hslash).
  assert (Hdot : chr "." :: rest <> lit ".")
    by (intros [= ->]; done).
  destruct (path_name_of_component _ Hname ltac:(done) Hdot dir)
    as [Hdir Hbase].
  assert (Hsuffix : forall path, path_name path = chr "." :: rest ->
                                 should_include_file path = false).
  { intros path Hpath. unfold should_include_file, suffix. rewrite Hpath.
    unfold rfind. cbn [rfind_from]. rewrite N.eqb_refl.
    rewrite (rfind_from_absent _ _ _ _ Hdots). reflexivity. }
  split; by apply Hsuffix.
Qed.

End Edges.

Section Bound.
Context {W : Type} {H : Host W}.

Lemma successes_weight (cap : nat) (rs : list (str * (exception + str))) :
  (list_sum (map (fun p => length p + 2)
               (map (fun '(fp, text) => excerpt fp text (Z.of_nat cap))
                  (successes rs)))
   <= list_sum (map (fun fp => length fp + cap + 11) (map fst rs)))%nat.
Proof.
  induction rs as [| [fp [e | text]] rs IH]; [done | |].
  - change (successes ((fp, inl e) :: rs)) with (successes rs).
    rewrite (map_cons fst). cbn [fst]. rewrite (map_cons _ fp).
    unfold list_sum in *. cbn [fold_right].
    eapply Nat.le_trans; [exact IH | apply Nat.le_add_l].
  - change (successes ((fp, inr text) :: rs))
      with ((fp, text) :: successes rs).
    rewrite (map_cons fst). cbn [fst]. rewrite !map_cons.
    unfold list_sum in *. cbn [fold_right].
    assert (length (excerpt fp text (Z.of_nat cap)) <= length fp + cap + 9)%nat.
    { unfold excerpt, slice_to.
      destruct (Z.leb_spec 0 (Z.of_nat cap)) as [_ | ?]; [| lia].
      rewrite Nat2Z.id, !length_app, length_take. cbn. lia. }
    apply Nat.add_le_mono; [lia | exact IH].
Qed.

(** X7. The snapshot is no longer than the sum, over the first
    [max_files] files, of the length of the path plus the cap plus 11
    (delimiter line and separator). *)
Theorem snapshot_length_is_bounded (files : list str)
    (max_per_file_chars max_files : nat) (st : state W) :
  exists (snapshot : str) (st' : state W),
    repo_map files (Z.of_nat max_per_file_chars) (Z.of_nat max_files) st
    = (Return snapshot, st')
    /\ (length snapshot
        <= list_sum (map (fun fp => length fp + max_per_file_chars + 11)
                       (take max_files files)))%nat.
Proof.
  destruct (repo_map_spec files (Z.of_nat max_per_file_chars)
              (Z.of_nat max_files) st) as (rs & st' & Hrun & _ & Hfps).
  unfold slice_to in Hfps.
  destruct (Z.leb_spec 0 (Z.of_nat max_files)) as [_ | ?]; [| lia].
  rewrite Nat2Z.id in Hfps.
  eexists _, st'. split; [exact Hrun |].
  etrans; [apply join_length |]. rewrite <- Hfps.
  apply successes_weight.
Qed.

End Bound.


Section Strip.
Context {W : Type} {H : Host W}.

(** X5. A command that is not fatal ([check] false, or exit code 0)
    returns the empty string exactly when its captured output is made of
    whitespace only; a non-empty result neither starts nor ends with
    whitespace. *)
Theorem blank_output_counts_as_empty (cmd : str) (check : bool)
    (st : state W) (p : CompletedProcess) (w' : W) :
  host_subprocess_run cmd (world st) = (inr p, w') ->
  check = false \/ returncode p = 0 ->
  (fst (run cmd check st) = Return [] <-> forallb isspace (stdout p) = true)
  /\ (forall c out, fst (run cmd check st) = Return (c :: out) ->
                    isspace c = false
                    /\ isspace (List.last (c :: out) c) = false).
Proof.
  intros Hp Hcheck. rewrite run_unfold, Hp.
  assert (check && negb (returncode p =? 0) = false) as ->.
  { destruct Hcheck as [-> | Hrc]; [done |].
    apply Z.eqb_eq in Hrc. by rewrite Hrc, andb_false_r. }
  cbn [fst]. split.
  - rewrite <- strip_nil. split; [by intros [= ->] | by intros ->].
  - intros c out [= Hout]. split; [| by apply (strip_last (stdout p))].
    destruct (strip_cases (stdout p)) as [[Hs _] | (x & t & _ & Hx & Hs)];
      congruence.
Qed.

End Strip.

(** ** The data flow of a run *)

Section Dataflow.

Context {U : Unicode} {W : Type} {H : Host W}.

Lemma bind_repo_map_reads {B} (files : list str) (cap max_files : Z)
    (k : str -> M W B) (st : state W) :
  exists rs w',
    bind (repo_map files cap max_files) k st =
    k (join [chr "010"; chr "010"]
         (map (fun '(fp, text) => excerpt fp text cap) (successes rs)))
      {| world := w'; log := log st ++ attempts rs |}
    /\ map fst rs = slice_to max_files files.
Proof.
  destruct (repo_map_spec files cap max_files st)
    as (rs & [w' l'] & Hrun & Hlog & Hfps).
  exists rs, w'. unfold bind. rewrite Hrun.
  cbn [log] in Hlog. by rewrite Hlog.
Qed.

Lemma bind_call_openai_request {B} (G : globals) (system_p user_p : str)
    (k : str -> M W B) (st : state W) :
  let req :=
    {| api_key := OPENAI_API_KEY G;
       model := OPENAI_MODEL G;
       input := [ {| role := lit "system"; content := system_p |};
                  {| role := lit "user"; content := user_p |} ];
       temperature := 2 # 10;
       max_output_tokens := 100000 |} in
  bind (call_openai G system_p user_p) k st =
  match host_responses_create req (world st) with
  | (inl e, w') =>
      (Uncaught e,
       {| world := w'; log := log st ++ [ResponsesCreate req (inl e)] |})
  | (inr resp, w') =>
      k (strip (getattr_output_text resp))
        {| world := w'; log := log st ++ [ResponsesCreate req (inr resp)] |}
  end.
Proof.
  intros req. unfold call_openai, bind, responses_create, call, ret.
  fold req. by destruct (host_responses_create req (world st)) as [[e | resp] w'].
Qed.

End Dataflow.

Lemma ResponsesCreate_inj (req req' : request) (r r' : exception + Response) :
  ResponsesCreate req r = ResponsesCreate req' r' -> req = req' /\ r = r'.
Proof. by intros [= -> ->]. Qed.

Ltac step_reads :=
  match goal with
  | Hrun : bind (repo_map ?f ?c ?n) ?k ?st = _ |- _ =>
      let rs := fresh "rs" in
      let w' := fresh "w" in
      let Heq := fresh "Heq" in
      let Hfps := fresh "Hfps" in
      destruct (bind_repo_map_reads f c n k st) as (rs & w' & Heq & Hfps);
      rewrite Heq in Hrun; clear Heq; cbn [world log] in Hrun
  end.

Ltac step_request Hrun :=
  unfold build_prompts in Hrun; cbv beta iota in Hrun;
  rewrite bind_call_openai_request in Hrun; cbv zeta in Hrun;
  cbn [world log] in Hrun;
  match type of Hrun with
  | context [host_responses_create ?req ?w] =>
      let e := fresh "e" in
      let resp := fresh "resp" in
      let w' := fresh "w" in
      destruct (host_responses_create req w) as [[e | resp] w'];
      [ finish Hrun | ]
  end.

Ltac run_main_dataflow :=
  on_run ltac:(fun Hrun => unfold exec, main in Hrun);
  on_run step_run; try on_run step_run; try on_run step_run;
  try (step_reads; on_run step_request);
  try split_diff;
  try on_run step_prints;
  try on_run step_run;
  try on_run step_write;
  try on_run step_run;
  try on_run step_run;
  try split_status;
  try on_run step_prints;
  try on_run step_run;
  try on_run step_run;
  try on_run step_prints.

Ltac codes :=
  repeat match goal with
         | Hrc : (_ =? _) = true |- _ => apply Z.eqb_eq in Hrc
         | Hrc : (_ =? _) = false |- _ => apply Z.eqb_neq in Hrc
         end.

(** Two events for command lines that differ in their first eight
    characters. *)
Ltac other_command Hin :=
  exfalso;
  apply (f_equal (fun e => match e with
                           | SubprocessRun c _ => take 8 c
                           | _ => []
                           end)) in Hin;
  vm_compute in Hin; discriminate Hin.

Ltac this_event Hin := first [ discriminate Hin | other_command Hin | idtac ].

Ltac in_atom :=
  unfold ran, reported;
  repeat first [ apply list_elem_of_here | apply list_elem_of_further ].

Ltac in_trace :=
  first [ apply list_elem_of_here
        | apply elem_of_app; first [ left; solve [in_atom] | right; in_trace ]
        | solve [in_atom] ].

Section MoreRuns.

Context {U : Unicode} {W : Type} {H : Host W}.

Variable G : globals.


(** X1. When the API request raises, the run ends with that exception
    uncaught; the checkout of the base branch, the pull and the listing
    are the only commands it has run, it has written no file, and the
    failed request is the last thing in its log. *)
Theorem api_failure_changes_nothing (w : W) (req : request) (e : exception) :
  ResponsesCreate req (inl e) ∈ trace_of (main G) w ->
  outcome_of (main G) w = Uncaught e
  /\ commands (trace_of (main G) w) = take 3 (main_commands G)
  /\ writes (trace_of (main G) w) = []
  /\ [ResponsesCreate req (inl e)] `suffix_of` trace_of (main G) w.
Proof.
  unfold outcome_of, trace_of.
  destruct (exec (main G) w) as [o st] eqn:Hrun.
  intros Hin.
  run_main; log_cases Hin; try discriminate Hin;
    injection Hin as -> ->.
  split; [done |]. split; [by read_log |]. split; [by read_log |].
  by ends_with.
Qed.



(** X3. How a run ends.  It returns only after the notice of a
    response that is no diff (three commands run), after the notice
    that there are no changes (six commands), or after the notice that
    the branch is pushed (all eight).  It exits only with a non-zero
    code, the one of the last command it ran, which is not the status
    query, after reporting its output.  An uncaught exception is the one
    the last host call raised: a subprocess, the API request or the
    write of the patch. *)
Theorem run_ends_classified (w : W) :
  match outcome_of (main G) w with
  | Return _ =>
      (commands (trace_of (main G) w) = take 3 (main_commands G)
       /\ exists diff, [Print no_diff_message; Print diff]
                       `suffix_of` trace_of (main G) w)
      \/ (commands (trace_of (main G) w) = take 6 (main_commands G)
          /\ [Print no_changes_message] `suffix_of` trace_of (main G) w)
      \/ (commands (trace_of (main G) w) = main_commands G
          /\ [Print pushed_message] `suffix_of` trace_of (main G) w)
  | SystemExit code =>
      code <> 0
      /\ exists cmd p,
           last (commands (trace_of (main G) w)) = Some cmd
           /\ cmd <> lit "git status --porcelain"
           /\ returncode p = code
           /\ ran cmd (inr p) ++ reported p `suffix_of` trace_of (main G) w
  | Uncaught e =>
      (exists cmd, last (commands (trace_of (main G) w)) = Some cmd
                   /\ ran cmd (inl e) `suffix_of` trace_of (main G) w)
      \/ (exists req, [ResponsesCreate req (inl e)]
                      `suffix_of` trace_of (main G) w)
      \/ (exists data, [WriteText (lit ".codex.patch") data (inl e)]
                       `suffix_of` trace_of (main G) w)
  end.
Proof.
  unfold outcome_of, trace_of.
  destruct (exec (main G) w) as [o st] eqn:Hrun.
  run_main; codes.
  all: try (left; split; [by read_log |];
            match goal with
            | |- context [Print (slice_to 2000 ?d)] =>
                exists (slice_to 2000 d)
            end; by ends_with).
  all: try (right; left; split; [by read_log | by ends_with]).
  all: try (right; right; split; [by read_log | by ends_with]).
  all: try (left; eexists; split; [by read_log | by ends_with]).
  all: try (right; left; eexists; by ends_with).
  all: try (right; right; eexists; by ends_with).
  all: split; [done |]; eexists _, _; split; [by read_log |];
    split; [| split; [reflexivity | by ends_with]];
    intros Hcmd; apply (f_equal (take 8)) in Hcmd; vm_compute in Hcmd;
    discriminate Hcmd.
Qed.

(** X4. The push is issued only at the end of a complete run: all eight
    commands are run, the patch file is written, every other subprocess
    has returned, with exit code 0 unless it is the status query, and
    the status query has printed something. *)
Theorem push_needs_every_step (w : W) (r : exception + CompletedProcess) :
  SubprocessRun (lit "git push -u origin " ++ shlex_quote (CHANGE_BRANCH G)) r
    ∈ trace_of (main G) w ->
  commands (trace_of (main G) w) = main_commands G
  /\ writes (trace_of (main G) w) = [lit ".codex.patch"]
  /\ (forall cmd r', SubprocessRun cmd r' ∈ trace_of (main G) w ->
        cmd <> lit "git push -u origin " ++ shlex_quote (CHANGE_BRANCH G) ->
        exists p, r' = inr p
                  /\ (cmd <> lit "git status --porcelain" ->
                      returncode p = 0))
  /\ (exists p, SubprocessRun (lit "git status --porcelain") (inr p)
                  ∈ trace_of (main G) w
                /\ strip (stdout p) <> []).
Proof.
  unfold outcome_of, trace_of.
  destruct (exec (main G) w) as [o st] eqn:Hrun.
  intros Hin.
  run_main; log_cases Hin; this_event Hin; clear Hin; codes.
  all: (split; [by read_log |]); (split; [by read_log |]).
  all: (split;
    [ intros cmd r' Hc Hcmd; log_cases Hc; try discriminate Hc;
      injection Hc as -> ->; try (by destruct Hcmd);
      eexists; (split; [reflexivity |]); intros Hst;
      first [ done | by destruct Hst ]
    | eexists; split; [in_trace | congruence] ]).
Qed.

(** X11. What the model is sent.  The request follows the checkout,
    the pull and a listing that exited with 0, and the reads of the
    first 150 selected files of that listing; it carries the key and the
    model of the globals, temperature 0.2 and 100000 output tokens, the
    system prompt and the user prompt built from the snapshot of the
    reads that succeeded, each file cut at 4000 characters. *)
Theorem request_carries_the_snapshot (w : W) (req : request)
    (r : exception + Response) :
  ResponsesCreate req r ∈ trace_of (main G) w ->
  exists (listing : CompletedProcess) (rs : list (str * (exception + str)))
         (before after : list event),
    let snapshot :=
      join [chr "010"; chr "010"]
        (map (fun '(fp, text) => excerpt fp text 4000) (successes rs)) in
    trace_of (main G) w =
      before ++ attempts rs ++ ResponsesCreate req r :: after
    /\ commands before = take 3 (main_commands G)
    /\ SubprocessRun (lit "git ls-files") (inr listing) ∈ before
    /\ returncode listing = 0
    /\ map fst rs =
       take 150 (List.filter should_include_file
                   (splitlines (strip (stdout listing))))
    /\ req =
       {| api_key := OPENAI_API_KEY G;
          model := OPENAI_MODEL G;
          input :=
            [ {| role := lit "system";
                 content := fst (build_prompts snapshot) |};
              {| role := lit "user";
                 content := snd (build_prompts snapshot) |} ];
          temperature := 2 # 10;
          max_output_tokens := 100000 |}.
Proof.
  unfold outcome_of, trace_of.
  destruct (exec (main G) w) as [o st] eqn:Hrun.
  intros Hin.
  run_main_dataflow; log_cases Hin; try discriminate Hin;
    apply ResponsesCreate_inj in Hin as [-> ->]; codes.
  all: match goal with
       | |- context [?a ++ ?b ++ ?c ++ attempts ?reads
                     ++ [ResponsesCreate ?q ?x] ++ ?rest] =>
           eexists _, reads, (a ++ b ++ c), rest
       | |- context [?a ++ ?b ++ ?c ++ attempts ?reads
                     ++ [ResponsesCreate ?q ?x]] =>
           eexists _, reads, (a ++ b ++ c), []
       end;
    cbv zeta;
    (split; [by rewrite <- !app_assoc |]);
    (split; [by read_log |]);
    (split; [in_trace |]);
    (split; [done |]);
    (split; [eassumption | reflexivity]).
Qed.

End MoreRuns.

(** *** More runs of the scripted host *)

Lemma api_failure_changes_nothing_witness :
  exists req,
    ResponsesCreate req (inl (APIError (lit "rate limit")))
      ∈ trace_of (main nightly) api_down
    /\ outcome_of (main nightly) api_down
       = Uncaught (APIError (lit "rate limit"))
    /\ writes (trace_of (main nightly) api_down) = [].
Proof.
  assert (Hin : exists req,
             ResponsesCreate req (inl (APIError (lit "rate limit")))
               ∈ trace_of (main nightly) api_down)
    by (eexists; in_log).
  destruct Hin as [req Hin]. exists req.
  destruct (api_failure_changes_nothing nightly api_down req _ Hin)
    as (Hout & _ & Hwrites & _).
  split; [exact Hin |]. split; [exact Hout | exact Hwrites].
Defined.


Lemma push_needs_every_step_witness :
  let w := scene (ok modified) (ok []) a_diff in
  SubprocessRun
    (lit "git push -u origin " ++ shlex_quote (CHANGE_BRANCH nightly))
    (ok []) ∈ trace_of (main nightly) w
  /\ commands (trace_of (main nightly) w) = main_commands nightly.
Proof.
  intros w.
  assert (Hin : SubprocessRun
                  (lit "git push -u origin "
                   ++ shlex_quote (CHANGE_BRANCH nightly))
                  (ok []) ∈ trace_of (main nightly) w) by in_log.
  destruct (push_needs_every_step nightly w _ Hin) as (Hcmds & _).
  split; [exact Hin | exact Hcmds].
Defined.

Lemma request_carries_the_snapshot_witness :
  let w := scene (ok modified) (ok []) a_diff in
  exists req r,
    ResponsesCreate req r ∈ trace_of (main nightly) w
    /\ model req = lit "gpt-5-codex"
    /\ max_output_tokens req = 100000.
Proof.
  intros w.
  assert (Hin : exists req r, ResponsesCreate req r ∈ trace_of (main nightly) w)
    by (eexists _, _; in_log).
  destruct Hin as (req & r & Hin). exists req, r.
  destruct (request_carries_the_snapshot nightly w req r Hin)
    as (listing & rs & before & after & _ & _ & _ & _ & _ & Hreq).
  split; [exact Hin |]. by rewrite Hreq.
Defined.

Lemma blank_output_counts_as_empty_witness :
  let st := {| world := all_fail; log := [] |} in
  let p := {| returncode := 3; stdout := lit " partial ";
              stderr := lit "fatal: boom" |} in
  host_subprocess_run (lit "git status --porcelain") (world st)
  = (inr p, all_fail)
  /\ (false = false \/ returncode p = 0)
  /\ fst (run (lit "git status --porcelain") false st)
     = Return (lit "partial")
  /\ isspace (chr "p") = false
  /\ isspace (List.last (lit "partial") (chr "p")) = false.
Proof.
  intros st p.
  assert (Hcheck : false = false \/ returncode p = 0) by (by left).
  assert (Hp : host_subprocess_run (lit "git status --porcelain") (world st)
               = (inr p, all_fail)) by reflexivity.
  destruct (blank_output_counts_as_empty (lit "git status --porcelain")
              false st p all_fail Hp Hcheck) as [_ Hends].
  split; [reflexivity |]. split; [exact Hcheck |]. split; [reflexivity |].
  exact (Hends (chr "p") (lit "artial") eq_refl).
Defined.

Lemma default_change_branch_needs_no_quotes_witness :
  let st := {| world := all_fail; log := [] |} in
  let environ : gmap str str := {[ lit "OPENAI_API_KEY" := lit "sk-test" ]} in
  environ !! lit "OPENAI_API_KEY" = Some (lit "sk-test")
  /\ environ !! lit "CHANGE_BRANCH" = None
  /\ (1000 <= year (host_utcnow (world st)) <= 9999)%N
  /\ exists G,
       load_globals environ st = (Return G, st)
       /\ shlex_quote (CHANGE_BRANCH G) = CHANGE_BRANCH G
       /\ CHANGE_BRANCH G = lit "codex/refactor-20250102030405".
Proof.
  intros st environ.
  assert (Hkey : environ !! lit "OPENAI_API_KEY" = Some (lit "sk-test"))
    by apply lookup_singleton_eq.
  assert (Hchange : environ !! lit "CHANGE_BRANCH" = None)
    by (by apply lookup_singleton_ne).
  assert (Hyear : (1000 <= year (host_utcnow (world st)) <= 9999)%N)
    by (cbn; lia).
  destruct (default_change_branch_needs_no_quotes environ st _ Hkey Hchange
              Hyear) as (G & Hload & Hquote & _).
  split; [exact Hkey |]. split; [exact Hchange |]. split; [exact Hyear |].
  exists G. split; [exact Hload |]. split; [exact Hquote |].
  unfold load_globals, getenv in Hload. rewrite Hkey, Hchange in Hload.
  by injection Hload as <-.
Defined.

Lemma extension_comes_from_the_last_component_witness :
  forallb (fun x => negb (x =? chr "/")%N) (lit "App.JS") = true
  /\ lit "App.JS" <> []
  /\ lit "App.JS" <> lit "."
  /\ suffix (lit "src/web" ++ chr "/" :: lit "App.JS") = suffix (lit "App.JS")
  /\ should_include_file (lit "src/web" ++ chr "/" :: lit "App.JS") = true.
Proof.
  assert (Hname : forallb (fun x => negb (x =? chr "/")%N) (lit "App.JS")
                  = true) by reflexivity.
  assert (Hne : lit "App.JS" <> []) by discriminate.
  assert (Hdot : lit "App.JS" <> lit ".") by discriminate.
  destruct (extension_comes_from_the_last_component (lit "src/web")
              (lit "App.JS") Hname Hne Hdot) as [Hsuffix Hsel].
  split; [exact Hname |]. split; [exact Hne |]. split; [exact Hdot |].
  split; [exact Hsuffix |].
  rewrite Hsel; reflexivity.
Defined.

Lemma dotfiles_are_not_selected_witness :
  forallb (fun x => negb (x =? chr "/")%N) (lit "yml") = true
  /\ forallb (fun x => negb (x =? chr ".")%N) (lit "yml") = true
  /\ lit "yml" <> []
  /\ should_include_file (lit ".yml") = false
  /\ should_include_file (lit "conf" ++ chr "/" :: lit ".yml") = false.
Proof.
  assert (Hslash : forallb (fun x => negb (x =? chr "/")%N) (lit "yml") = true)
    by reflexivity.
  assert (Hdots : forallb (fun x => negb (x =? chr ".")%N) (lit "yml") = true)
    by reflexivity.
  assert (Hne : lit "yml" <> []) by discriminate.
  destruct (dotfiles_are_not_selected (lit "conf") (lit "yml")
              Hslash Hdots Hne) as [Hbare Hdir].
  split; [exact Hslash |]. split; [exact Hdots |]. split; [exact Hne |].
  split; [exact Hbare | exact Hdir].
Defined.
